(** * paynow-go: request/response signing protocol

    Shallow embedding of [internal/hash/hash.go] ([GenerateHash] and
    [ValidateHash]), of the client in paynow.go that calls them
    ([SendMobile], [PollTransaction] and their helpers) and of package
    types, together with the pieces of the Go standard library they
    call: [url.ParseQuery], [strings.Split], [strings.SplitN],
    [strings.ToLower], [strings.ToUpper], [sort.Strings],
    [url.Values.Get], [url.QueryUnescape], [url.QueryEscape],
    [url.Values.Encode], [hex.EncodeToString] and [sha512.Sum512].

    Go strings are byte sequences: they are modelled as [string], whose
    characters are the 256 byte values.  [uint64] words and bytes are
    modelled as [Z] with the wrap-around written out. *)

From Stdlib Require Import ZArith NArith Ascii String List Bool Lia.
From Stdlib Require Import PrimFloat.
From stdpp Require Import base list sorting gmap strings.

Local Open Scope string_scope.
Local Open Scope Z_scope.
Local Open Scope list_scope.

(* ===================================================================== *)
(** * Bytes and strings *)

Definition byte_of_ascii (c : ascii) : Z := Z.of_N (N_of_ascii c).
Definition ascii_of_byte (b : Z) : ascii := ascii_of_N (Z.to_N b).

(** [[]byte(s)] *)
Definition bytes_of_string (s : string) : list Z :=
  List.map byte_of_ascii (list_ascii_of_string s).

(** [strings.Builder]: [WriteString] appends; the model of a builder is
    the string written so far. *)
Definition WriteString (b s : string) : string := String.append b s.

(** The concatenation of a list of strings, in the order of the list. *)
Definition concat_all (l : list string) : string :=
  fold_right String.append EmptyString l.

(* ===================================================================== *)
(** * package strings *)

Definition in_range (lo hi c : ascii) : bool :=
  (byte_of_ascii lo <=? byte_of_ascii c) && (byte_of_ascii c <=? byte_of_ascii hi).

Definition lower_byte (c : ascii) : ascii :=
  if in_range "A" "Z" c then ascii_of_byte (byte_of_ascii c + 32) else c.

Definition upper_byte (c : ascii) : ascii :=
  if in_range "a" "z" c then ascii_of_byte (byte_of_ascii c - 32) else c.

Fixpoint map_bytes (f : ascii -> ascii) (s : string) : string :=
  match s with
  | EmptyString => EmptyString
  | String c r => String (f c) (map_bytes f r)
  end.

(** [strings.ToLower] and [strings.ToUpper] on the ASCII letters; every
    other byte is kept.  Go additionally maps the non-ASCII letters of a
    UTF-8 string; the source only compares the result of [ToLower] with
    the ASCII word [hash] (no letter outside ASCII lowers to [h], [a] or
    [s]) and applies [ToUpper] to a hexadecimal string, so the byte-wise
    maps decide every test the source makes. *)
Definition ToLower (s : string) : string := map_bytes lower_byte s.
Definition ToUpper (s : string) : string := map_bytes upper_byte s.

(** [strings.Split(s, sep)] for a one-byte separator: the substrings
    between the separators, [len = Count(s, sep) + 1]. *)
Fixpoint Split (s : string) (sep : ascii) : list string :=
  match s with
  | EmptyString => [EmptyString]
  | String c r =>
      if Ascii.eqb c sep then EmptyString :: Split r sep
      else match Split r sep with
           | h :: t => String c h :: t
           | [] => [String c EmptyString]
           end
  end.

(** [strings.Index(s, sep)] for a one-byte separator, returning the text
    before and after the first separator instead of its position. *)
Fixpoint Cut (s : string) (sep : ascii) : option (string * string) :=
  match s with
  | EmptyString => None
  | String c r =>
      if Ascii.eqb c sep then Some (EmptyString, r)
      else match Cut r sep with
           | Some (a, b) => Some (String c a, b)
           | None => None
           end
  end.

(** [strings.SplitN(s, sep, n)] for a one-byte separator and [n >= 0]:
    at most [n] substrings, the last one being the unsplit remainder. *)
Fixpoint SplitN (s : string) (sep : ascii) (n : nat) : list string :=
  match n with
  | O => []
  | S O => [s]
  | S n' =>
      match Cut s sep with
      | Some (a, b) => a :: SplitN b sep n'
      | None => [s]
      end
  end.

(** [strings.Count(s, sep)] for a one-byte separator. *)
Fixpoint Count (s : string) (sep : ascii) : nat :=
  match s with
  | EmptyString => O
  | String c r => if Ascii.eqb c sep then S (Count r sep) else Count r sep
  end.

(** [strings.Join(elems, sep)] for a one-byte separator. *)
Fixpoint Join (elems : list string) (sep : ascii) : string :=
  match elems with
  | [] => EmptyString
  | [e] => e
  | e :: rest => String.append e (String sep (Join rest sep))
  end.

(* ===================================================================== *)
(** * package crypto/sha512 *)

Definition u64 (x : Z) : Z := x mod 2 ^ 64.

(** [bits.RotateLeft64(x, -k)], a rotation to the right by [k]. *)
Definition rotr (k x : Z) : Z :=
  Z.lor (Z.shiftr x k) (u64 (Z.shiftl x (64 - k))).

(** [^x] on a [uint64]. *)
Definition not64 (x : Z) : Z := Z.lxor x (2 ^ 64 - 1).

Definition _K : list Z :=
  [ 0x428a2f98d728ae22; 0x7137449123ef65cd; 0xb5c0fbcfec4d3b2f; 0xe9b5dba58189dbbc;
    0x3956c25bf348b538; 0x59f111f1b605d019; 0x923f82a4af194f9b; 0xab1c5ed5da6d8118;
    0xd807aa98a3030242; 0x12835b0145706fbe; 0x243185be4ee4b28c; 0x550c7dc3d5ffb4e2;
    0x72be5d74f27b896f; 0x80deb1fe3b1696b1; 0x9bdc06a725c71235; 0xc19bf174cf692694;
    0xe49b69c19ef14ad2; 0xefbe4786384f25e3; 0x0fc19dc68b8cd5b5; 0x240ca1cc77ac9c65;
    0x2de92c6f592b0275; 0x4a7484aa6ea6e483; 0x5cb0a9dcbd41fbd4; 0x76f988da831153b5;
    0x983e5152ee66dfab; 0xa831c66d2db43210; 0xb00327c898fb213f; 0xbf597fc7beef0ee4;
    0xc6e00bf33da88fc2; 0xd5a79147930aa725; 0x06ca6351e003826f; 0x142929670a0e6e70;
    0x27b70a8546d22ffc; 0x2e1b21385c26c926; 0x4d2c6dfc5ac42aed; 0x53380d139d95b3df;
    0x650a73548baf63de; 0x766a0abb3c77b2a8; 0x81c2c92e47edaee6; 0x92722c851482353b;
    0xa2bfe8a14cf10364; 0xa81a664bbc423001; 0xc24b8b70d0f89791; 0xc76c51a30654be30;
    0xd192e819d6ef5218; 0xd69906245565a910; 0xf40e35855771202a; 0x106aa07032bbd1b8;
    0x19a4c116b8d2d0c8; 0x1e376c085141ab53; 0x2748774cdf8eeb99; 0x34b0bcb5e19b48a8;
    0x391c0cb3c5c95a63; 0x4ed8aa4ae3418acb; 0x5b9cca4f7763e373; 0x682e6ff3d6b2b8a3;
    0x748f82ee5defb2fc; 0x78a5636f43172f60; 0x84c87814a1f0ab72; 0x8cc702081a6439ec;
    0x90befffa23631e28; 0xa4506cebde82bde9; 0xbef9a3f7b2c67915; 0xc67178f2e372532b;
    0xca273eceea26619c; 0xd186b8c721c0c207; 0xeada7dd6cde0eb1e; 0xf57d4f7fee6ed178;
    0x06f067aa72176fba; 0x0a637dc5a2c898a6; 0x113f9804bef90dae; 0x1b710b35131c471b;
    0x28db77f523047d84; 0x32caab7b40c72493; 0x3c9ebe0a15c9bebc; 0x431d67c49c100d4c;
    0x4cc5d4becb3e42b6; 0x597f299cfc657e2a; 0x5fcb6fab3ad6faec; 0x6c44198c4a475817 ].

(** The field [h [8]uint64] of the digest. *)
Record digest : Type := Digest {
  h0 : Z; h1 : Z; h2 : Z; h3 : Z; h4 : Z; h5 : Z; h6 : Z; h7 : Z
}.

(** [init0 .. init7] of [Reset] for SHA-512. *)
Definition digest_init : digest :=
  Digest 0x6a09e667f3bcc908 0xbb67ae8584caa73b 0x3c6ef372fe94f82b 0xa54ff53a5f1d36f1
         0x510e527fade682d1 0x9b05688c2b3e6c1f 0x1f83d9abfb41bd6b 0x5be0cd19137e2179.

(** Big-endian load of the first eight bytes of [p]. *)
Definition be_uint64 (p : list Z) : Z :=
  fold_left (fun acc b => Z.lor (Z.shiftl acc 8) b) (firstn 8 p) 0.

(** [w[0..15]] of a 128-byte chunk. *)
Fixpoint load_words (n : nat) (p : list Z) : list Z :=
  match n with
  | O => []
  | S n' => be_uint64 p :: load_words n' (skipn 8 p)
  end.

(** The schedule is kept newest-first while it is extended, so that
    [w[i-2]], [w[i-7]], [w[i-15]] and [w[i-16]] sit at fixed positions. *)
Definition schedule_step (rw : list Z) : list Z :=
  let v1 := nth 1 rw 0 in
  let t1 := Z.lxor (Z.lxor (rotr 19 v1) (rotr 61 v1)) (Z.shiftr v1 6) in
  let v2 := nth 14 rw 0 in
  let t2 := Z.lxor (Z.lxor (rotr 1 v2) (rotr 8 v2)) (Z.shiftr v2 7) in
  u64 (t1 + nth 6 rw 0 + t2 + nth 15 rw 0) :: rw.

Definition schedule (p : list Z) : list Z :=
  rev (Nat.iter 64 schedule_step (rev (load_words 16 p))).

(** One of the eighty rounds on the working variables [a .. h]. *)
Definition round (s : digest) (kw : Z * Z) : digest :=
  let '(Digest a b c d e f g h) := s in
  let t1 := u64 (h + Z.lxor (Z.lxor (rotr 14 e) (rotr 18 e)) (rotr 41 e)
                  + Z.lxor (Z.land e f) (Z.land (not64 e) g)
                  + fst kw + snd kw) in
  let t2 := u64 (Z.lxor (Z.lxor (rotr 28 a) (rotr 34 a)) (rotr 39 a)
                  + Z.lxor (Z.lxor (Z.land a b) (Z.land a c)) (Z.land b c)) in
  Digest (u64 (t1 + t2)) a b c (u64 (d + t1)) e f g.

(** The body of the loop of [blockGeneric] for one 128-byte chunk. *)
Definition block (dig : digest) (p : list Z) : digest :=
  let s := fold_left round (combine _K (schedule p)) dig in
  Digest (u64 (h0 dig + h0 s)) (u64 (h1 dig + h1 s)) (u64 (h2 dig + h2 s))
         (u64 (h3 dig + h3 s)) (u64 (h4 dig + h4 s)) (u64 (h5 dig + h5 s))
         (u64 (h6 dig + h6 s)) (u64 (h7 dig + h7 s)).

(** [for len(p) >= chunk { ...; p = p[chunk:] }]; the fuel bounds the
    number of chunks and [blocks] is called with [length p]. *)
Fixpoint blocks (fuel : nat) (dig : digest) (p : list Z) : digest :=
  match fuel with
  | O => dig
  | S fuel' =>
      if (128 <=? length p)%nat then blocks fuel' (block dig p) (skipn 128 p)
      else dig
  end.

(** Big-endian bytes of the low [8 * n] bits of [x]. *)
Fixpoint be_bytes (n : nat) (x : Z) : list Z :=
  match n with
  | O => []
  | S n' => Z.land (Z.shiftr x (8 * Z.of_nat n')) 255 :: be_bytes n' x
  end.

(** The padding written by [checkSum]: [0x80], zeros up to 112 modulo
    128, then sixteen bytes of length: the upper eight are zero and the
    lower eight hold [len << 3], a [uint64], in big-endian order. *)
Definition padding (len : nat) : list Z :=
  let r := (len mod 128)%nat in
  let zeros := if (r <? 112)%nat then (111 - r)%nat else (239 - r)%nat in
  128 :: repeat 0 zeros ++ be_bytes 8 0 ++ be_bytes 8 (u64 (Z.shiftl (Z.of_nat len) 3)).

(** [sha512.Sum512(data)]: the 64 bytes of the digest. *)
Definition Sum512 (data : list Z) : list Z :=
  let p := data ++ padding (length data) in
  let d := blocks (length p) digest_init p in
  be_bytes 8 (h0 d) ++ be_bytes 8 (h1 d) ++ be_bytes 8 (h2 d) ++ be_bytes 8 (h3 d) ++
  be_bytes 8 (h4 d) ++ be_bytes 8 (h5 d) ++ be_bytes 8 (h6 d) ++ be_bytes 8 (h7 d).

(* ===================================================================== *)
(** * package encoding/hex *)

Definition hextable : list ascii :=
  list_ascii_of_string "0123456789abcdef".

Definition hexdigit (n : Z) : ascii := nth (Z.to_nat n) hextable "0"%char.

(** [hex.EncodeToString(src)]: two lower-case digits per byte. *)
Fixpoint EncodeToString (src : list Z) : string :=
  match src with
  | [] => EmptyString
  | v :: rest =>
      String (hexdigit (Z.shiftr v 4)) (String (hexdigit (Z.land v 15)) (EncodeToString rest))
  end.

(** [strings.ToUpper(hex.EncodeToString(hash[:]))] of
    [sha512.Sum512([]byte(s))], the expression both functions end with. *)
Definition sum_hex (s : string) : string :=
  ToUpper (EncodeToString (Sum512 (bytes_of_string s))).

(* ===================================================================== *)
(** * package sort *)

(** Byte-wise lexicographic order, the [<] of Go strings; [String.le]
    is its [<=]. *)
Definition string_lt (s t : string) : Prop := String.ltb s t = true.

(** [sort.Strings(x)]: [x] in increasing order.  The order is total and
    antisymmetric, so the sorted slice does not depend on the algorithm
    (see [Strings_unique] below); merge sort stands for Go's pdqsort. *)
Definition Strings (x : list string) : list string := merge_sort String.le x.

(* ===================================================================== *)
(** * package net/url *)

(** [type Values map[string][]string] *)
Abbreviation Values := (gmap string (list string)).

(** [func (v Values) Get(key string) string]: the first value of the
    key, or the empty string. *)
Definition Get (v : Values) (key : string) : string :=
  match v !! key with
  | Some (x :: _) => x
  | _ => EmptyString
  end.

(** [func (v Values) Set(key, value string)]: [v[key] = []string{value}] *)
Definition Set_ (v : Values) (key value : string) : Values :=
  <[key := [value]]> v.

(** [for k := range values]: the keys of the map, in an order the
    language leaves open.  [range_keys] fixes one; [GenerateHash] sorts
    the keys it collects, which makes the choice irrelevant
    (see [hash_keys_order_irrelevant]). *)
Definition range_keys (v : Values) : list string := (map_to_list v).*1.

Definition ishex (c : ascii) : bool :=
  in_range "0" "9" c || in_range "a" "f" c || in_range "A" "F" c.

Definition unhex (c : ascii) : Z :=
  if in_range "0" "9" c then byte_of_ascii c - byte_of_ascii "0"
  else if in_range "a" "f" c then byte_of_ascii c - byte_of_ascii "a" + 10
  else if in_range "A" "F" c then byte_of_ascii c - byte_of_ascii "A" + 10
  else 0.

(** [type EscapeError string]: the offending fragment of the input. *)
Definition EscapeError : Type := string.

(** [s[i:]] cut to at most three bytes. *)
Definition fragment (s : string) : string := String.substring 0 3 s.

(** [url.QueryUnescape(s)] ([unescape] in mode [encodeQueryComponent]):
    [%XX] becomes the byte [XX], [+] becomes a space; a [%] that is not
    followed by two hexadecimal digits is an [EscapeError].  Go checks
    the whole string before it builds the result; the single pass below
    fails at the same (leftmost) ill-formed [%]. *)
Fixpoint QueryUnescape (s : string) : EscapeError + string :=
  match s with
  | EmptyString => inr EmptyString
  | String c r =>
      if Ascii.eqb c "%" then
        match r with
        | String x1 (String x2 r') =>
            if ishex x1 && ishex x2 then
              match QueryUnescape r' with
              | inr t => inr (String (ascii_of_byte (Z.lor (Z.shiftl (unhex x1) 4) (unhex x2))) t)
              | inl e => inl e
              end
            else inl (fragment s)
        | _ => inl (fragment s)
        end
      else
        match QueryUnescape r with
        | inr t => inr (String (if Ascii.eqb c "+" then " "%char else c) t)
        | inl e => inl e
        end
  end.

(** [shouldEscape(c, encodeQueryComponent)]: everything but the
    unreserved characters. *)
Definition shouldEscape (c : ascii) : bool :=
  if in_range "a" "z" c || in_range "A" "Z" c || in_range "0" "9" c then false
  else if Ascii.eqb c "-" || Ascii.eqb c "_" || Ascii.eqb c "." || Ascii.eqb c "~" then false
  else true.

Definition upperhex : list ascii := list_ascii_of_string "0123456789ABCDEF".

(** [url.QueryEscape(s)] ([escape] in mode [encodeQueryComponent]). *)
Fixpoint QueryEscape (s : string) : string :=
  match s with
  | EmptyString => EmptyString
  | String c r =>
      if Ascii.eqb c " " then String "+" (QueryEscape r)
      else if shouldEscape c then
        String "%" (String (nth (Z.to_nat (Z.shiftr (byte_of_ascii c) 4)) upperhex "0"%char)
                   (String (nth (Z.to_nat (Z.land (byte_of_ascii c) 15)) upperhex "0"%char)
                           (QueryEscape r)))
      else String c (QueryEscape r)
  end.

(** What [QueryEscape] writes for one byte. *)
Definition escape_byte (c : ascii) : string :=
  if Ascii.eqb c " " then "+"
  else if shouldEscape c then
    String "%" (String (nth (Z.to_nat (Z.shiftr (byte_of_ascii c) 4)) upperhex "0"%char)
               (String (nth (Z.to_nat (Z.land (byte_of_ascii c) 15)) upperhex "0"%char)
                       EmptyString))
  else String c EmptyString.

(** One pair of the form body, as [url.Values.Encode] writes it. *)
Definition encode_pair (k x : string) : string :=
  String.append (QueryEscape k) (String "=" (QueryEscape x)).

(** The values of a name: [v[k]], the [nil] slice when [k] is absent. *)
Definition values_of (v : Values) (k : string) : list string :=
  default [] (v !! k).

(** The pairs written for the names [keys], each with its values [vals]
    in their order. *)
Definition pairs_of (vals : string -> list string) (keys : list string) : list string :=
  flat_map (fun k => List.map (encode_pair k) (vals k)) keys.

(** The pairs [url.Values.Encode] writes: the keys in sorted order, and
    for each key its values in their order. *)
Definition encode_pairs (v : Values) : list string :=
  pairs_of (values_of v) (Strings (range_keys v)).

(** [func (v Values) Encode() string] *)
Definition Encode (v : Values) : string := Join (encode_pairs v) "&".

(* ===================================================================== *)
(** * package hash (internal/hash/hash.go) *)

(** [strings.ToLower(k) == "hash"] *)
Definition is_hash (k : string) : bool := String.eqb (ToLower k) "hash".

(** The keys collected by the first loop of [GenerateHash], sorted. *)
Definition hash_keys (values : Values) : list string :=
  Strings (List.filter (fun k => negb (is_hash k)) (range_keys values)).

(** [func GenerateHash(values url.Values, integrationKey string) string] *)
Definition GenerateHash (values : Values) (integrationKey : string) : string :=
  let keys := hash_keys values in
  let hashString :=
    fold_left (fun b k => WriteString b (Get values k)) keys EmptyString in
  let hashString := WriteString hashString integrationKey in
  let hash := Sum512 (bytes_of_string hashString) in
  ToUpper (EncodeToString hash).

(** The two errors [ValidateHash] builds with [fmt.Errorf], by their
    arguments:
    ["failed to decode value for key %s: %w", key, err] and
    ["invalid hash: received %s, expected %s", receivedHash, expectedHash]. *)
Inductive error : Type :=
  | DecodeError (key : string) (err : EscapeError)
  | InvalidHash (receivedHash expectedHash : string).

(** The local variables of [ValidateHash] that the loop updates. *)
Record locals : Type := Locals {
  hashString : string;
  receivedHash : string
}.

Definition locals_init : locals := Locals EmptyString EmptyString.

(** The body of [for _, pair := range pairs], from the pairs left to
    visit and the current locals to the locals at loop exit, or to the
    error returned from inside the loop. *)
Fixpoint scan (pairs : list string) (st : locals) : error + locals :=
  match pairs with
  | [] => inr st
  | pair_ :: rest =>
      match SplitN pair_ "=" 2 with
      | [key; value] =>
          if is_hash key then
            scan rest (Locals (hashString st) value)
          else
            match QueryUnescape value with
            | inl err => inl (DecodeError key err)
            | inr decodedValue =>
                scan rest (Locals (WriteString (hashString st) decodedValue) (receivedHash st))
            end
      | _ => scan rest st
      end
  end.

(** [func ValidateHash(rawBody string, integrationKey string) error];
    [None] is the [nil] error. *)
Definition ValidateHash (rawBody integrationKey : string) : option error :=
  let pairs := Split rawBody "&" in
  match scan pairs locals_init with
  | inl e => Some e
  | inr st =>
      let hashString := WriteString (hashString st) integrationKey in
      let hash := Sum512 (bytes_of_string hashString) in
      let expectedHash := ToUpper (EncodeToString hash) in
      if String.eqb (receivedHash st) expectedHash then None
      else Some (InvalidHash (receivedHash st) expectedHash)
  end.

(** The text the round-trip property feeds to the verifier: the pairs of
    the signed fields as [url.Values.Encode] writes them (sorted names,
    names and values percent-encoded), then the pair [hash=<sig>], all
    joined by [&]. *)
Definition wire_text (values : Values) (sig : string) : string :=
  Join (encode_pairs values ++ [String.append "hash=" sig]) "&".

(* ===================================================================== *)
(** * The verifier, described on the list of fields

    A second description of what [ValidateHash] computes, by list
    operations on the fields of the payload instead of a loop; it is
    proved equal to the loop in [scan_fields]. *)

(** The name and the value of a token that has an [=]. *)
Definition field_of (token : string) : option (string * string) :=
  match SplitN token "=" 2 with
  | [key; value] => Some (key, value)
  | _ => None
  end.

(** The fields of the payload, in wire order. *)
Definition fields (pairs : list string) : list (string * string) :=
  omap field_of pairs.

(** The fields that are hashed: all but those named [hash]. *)
Definition signed_fields (pairs : list string) : list (string * string) :=
  List.filter (fun kv => negb (is_hash (fst kv))) (fields pairs).

(** The raw values of the fields named [hash]. *)
Definition hash_values (pairs : list string) : list string :=
  List.map snd (List.filter (fun kv => is_hash (fst kv)) (fields pairs)).

(** The received signature: the value of the last field named [hash],
    the empty string when there is none. *)
Definition received_signature (pairs : list string) : string :=
  List.last (hash_values pairs) EmptyString.

(** The decoded values in the order of the list, or the error of the
    first value that does not decode. *)
Fixpoint decode_values (fs : list (string * string)) : error + list string :=
  match fs with
  | [] => inr []
  | (key, value) :: rest =>
      match QueryUnescape value with
      | inl err => inl (DecodeError key err)
      | inr d =>
          match decode_values rest with
          | inl e => inl e
          | inr ds => inr (d :: ds)
          end
      end
  end.

(** The token is a field other than [hash] whose value does not decode. *)
Definition decode_fails (token : string) : bool :=
  match field_of token with
  | Some (key, value) =>
      negb (is_hash key) &&
      match QueryUnescape value with inl _ => true | inr _ => false end
  | None => false
  end.

(** Some token is a field named [hash]. *)
Definition has_hash_field (pairs : list string) : bool :=
  existsb (fun kv => is_hash (fst kv)) (fields pairs).

(** Every byte of [s] satisfies [f]. *)
Fixpoint all_bytes (f : ascii -> bool) (s : string) : bool :=
  match s with
  | EmptyString => true
  | String c r => f c && all_bytes f r
  end.

(** The characters [a-z]. *)
Definition is_lower_letter (c : ascii) : bool := in_range "a" "z" c.

(** The characters [0-9] and [A-F]. *)
Definition is_upper_hex (c : ascii) : bool :=
  in_range "0" "9" c || in_range "A" "F" c.

(** No name has several values: the field sets of the data model, as
    [Set] builds them. *)
Definition single_valued (v : Values) : Prop :=
  forall k vs, v !! k = Some vs -> (length vs <= 1)%nat.

(** Two hundred bytes [x], a message of more than one chunk. *)
Definition two_chunks : string := string_of_list_ascii (repeat "x"%char 200).

(** The field set [{"a": "1", "b": "2"}], built with [Set] as the client
    builds its requests. *)
Definition ab : Values := Set_ (Set_ ∅ "b" "2") "a" "1".

(** A request with a value that needs escaping and a stale [Hash]. *)
Definition payment : Values :=
  Set_ (Set_ (Set_ ∅ "returnurl" "https://example.com/return?a=1&b=2 3")
             "amount" "10.00")
       "Hash" "some-existing-hash".

(** A map in which the name [a] has two values. *)
Definition two_values : Values := <["a" := ["1"; "2"]]> ∅.

(* ===================================================================== *)
(** * package types (types/payment_method.go, types/transaction_status.go) *)

(** [type PaymentMethod string] *)
Definition PaymentMethod : Type := string.
Definition MethodEcocash : PaymentMethod := "ecocash".

(** [type TransactionStatus string] *)
Definition TransactionStatus : Type := string.
Definition StatusCreated : TransactionStatus := "Created".
Definition StatusSent : TransactionStatus := "Sent".
Definition StatusPending : TransactionStatus := "Pending".
Definition StatusPaid : TransactionStatus := "Paid".
Definition StatusCancelled : TransactionStatus := "Cancelled".
Definition StatusFailed : TransactionStatus := "Failed".
Definition StatusRefunded : TransactionStatus := "Refunded".
Definition StatusAwaitingDelivery : TransactionStatus := "Awaiting Delivery".
Definition StatusDelivered : TransactionStatus := "Delivered".

Definition IsPaid (s : TransactionStatus) : bool := String.eqb s StatusPaid.

Definition IsPending (s : TransactionStatus) : bool :=
  String.eqb s StatusCreated || String.eqb s StatusSent || String.eqb s StatusPending.

Definition IsFailed (s : TransactionStatus) : bool :=
  String.eqb s StatusCancelled || String.eqb s StatusFailed.

(* ===================================================================== *)
(** * url.ParseQuery *)

(** The errors [parseQuery] returns: the one for too many parameters,
    the one it builds for a [;] and the [EscapeError] of
    [QueryUnescape]. *)
Inductive query_error : Type :=
  | LimitError
  | SemicolonError
  | UnescapeError (err : EscapeError).

(** [urlParamsWithinMax(params)] under the default setting of
    [urlmaxqueryparams]: at most [defaultMaxParams] parameters. *)
Definition defaultMaxParams : Z := 10000.

Definition urlParamsWithinMax (params : Z) : bool := params <=? defaultMaxParams.

(** [strings.Contains(s, sep)] for a one-byte [sep]. *)
Definition Contains (s : string) (sep : ascii) : bool :=
  negb (Nat.eqb (Count s sep) 0).

(** [strings.Cut(s, sep)] for a one-byte [sep], without the [found]
    flag: [(s, "")] when [sep] does not occur. *)
Definition Cut2 (s : string) (sep : ascii) : string * string :=
  match Cut s sep with
  | Some ab => ab
  | None => (s, EmptyString)
  end.

(** [if err == nil { err = err1 }] *)
Definition first_error (err : option query_error) (err1 : query_error) : option query_error :=
  match err with
  | Some _ => err
  | None => Some err1
  end.

(** One turn of the loop of [parseQuery], for the token [key] cut off
    the query: the map [m] and the error [err] after it. *)
Definition parse_token (st : Values * option query_error) (key : string)
  : Values * option query_error :=
  let '(m, err) := st in
  if Contains key ";" then (m, Some SemicolonError)
  else if String.eqb key EmptyString then (m, err)
  else
    let '(key, value) := Cut2 key "=" in
    match QueryUnescape key with
    | inl err1 => (m, first_error err (UnescapeError err1))
    | inr key =>
        match QueryUnescape value with
        | inl err1 => (m, first_error err (UnescapeError err1))
        | inr value => (<[key := values_of m key ++ [value]]> m, err)
        end
    end.

(** [for query != "" { key, query, _ = strings.Cut(query, "&"); ... }];
    every turn shortens the query, and the fuel is its length plus one. *)
Fixpoint parseQuery (fuel : nat) (st : Values * option query_error) (query : string)
  : Values * option query_error :=
  match fuel with
  | O => st
  | S fuel' =>
      if String.eqb query EmptyString then st
      else
        let '(key, query') := Cut2 query "&" in
        parseQuery fuel' (parse_token st key) query'
  end.

(** [url.ParseQuery(query)]: the map of the pairs that parse, and the
    error, if any.  A [;] is an error, not a separator, and a query of
    more than [defaultMaxParams] parameters, counted by its [&] before
    the loop runs, is refused as a whole. *)
Definition ParseQuery (query : string) : Values * option query_error :=
  if urlParamsWithinMax (Z.of_nat (Count query "&") + 1)
  then parseQuery (S (String.length query)) (∅, None) query
  else (∅, Some LimitError).

(* ===================================================================== *)
(** * package paynow (paynow.go) *)

Definition defaultInitiateURL : string :=
  "https://www.paynow.co.zw/interface/remotetransaction".

Record Config : Type := {
  IntegrationID : string;
  IntegrationKey : string;
  ResultURL : string;
  ReturnURL : string
}.

(** [Amount] is a [float64], an IEEE 754 binary64 number. *)
Record Payment : Type := {
  Reference : string;
  Amount : float;
  AuthEmail : string;
  Phone : string;
  Method : PaymentMethod
}.

Record InitResponse : Type := {
  Status : string;
  BrowserURL : string;
  PollURL : string;
  Hash : string;
  Error : string
}.

(** The fields of [StatusResponse]; the prefix tells them from the
    fields of the same name of [Payment] and [InitResponse]. *)
Record StatusResponse : Type := {
  sr_Reference : string;
  sr_Amount : float;
  sr_PaynowReference : string;
  sr_PollURL : string;
  sr_Status : TransactionStatus;
  sr_Hash : string
}.

(** The two calls into package [fmt] that convert an amount:
    [fmt.Sprintf("%.2f", amount)] and [fmt.Sscanf(s, "%f", &amount)],
    the latter giving the error or the amount read.  The client is
    modelled for any such pair of functions. *)
Record fmt_amount : Type := {
  Sprintf_2f : float -> string;
  Sscanf_f : string -> string + float
}.

(** An [error] of the transport, by its message. *)
Definition transport_error : Type := string.

(** An [*http.Response], as far as the client reads it: what
    [io.ReadAll(response.Body)] returns. *)
Record Response : Type := {
  Body : transport_error + string
}.

(** [type HTTPClient interface]: the two methods act on a state [S] of
    the implementation (the network, or what a mock records) and return
    an error or a response, as [http.Client] does. *)
Record HTTPClient (S : Type) : Type := {
  PostForm : string -> Values -> S -> (transport_error + Response) * S;
  HTTPGet : string -> S -> (transport_error + Response) * S
}.
Arguments PostForm {S}.
Arguments HTTPGet {S}.

Record Client (S : Type) : Type := {
  config : Config;
  httpClient : HTTPClient S
}.
Arguments config {S}.
Arguments httpClient {S}.

(** [NewWithHTTPClient(config, httpClient)] *)
Definition NewWithHTTPClient {S} (config : Config) (httpClient : HTTPClient S) : Client S :=
  {| config := config; httpClient := httpClient |}.

(** The errors the client returns, one constructor for each
    [fmt.Errorf] of paynow.go, with the wrapped error or the argument;
    [ErrHash] is the error of [hash.ValidateHash], returned as it is. *)
Inductive client_error : Type :=
  | ErrReferenceRequired
  | ErrAmountNotPositive
  | ErrAuthEmailRequired
  | ErrPhoneRequired
  | ErrSendRequest (err : transport_error)
  | ErrReadResponse (err : transport_error)
  | ErrPollTransaction (err : transport_error)
  | ErrReadPollResponse (err : transport_error)
  | ErrParseResponse (err : query_error)
  | ErrParseStatusResponse (err : query_error)
  | ErrHash (err : error)
  | ErrPaynow (message : string)
  | ErrParseAmount (err : string).

Definition validatePayment (payment : Payment) : option client_error :=
  if String.eqb (Reference payment) EmptyString then Some ErrReferenceRequired
  else if PrimFloat.leb (Amount payment) 0%float then Some ErrAmountNotPositive
  else if String.eqb (AuthEmail payment) EmptyString then Some ErrAuthEmailRequired
  else if String.eqb (Phone payment) EmptyString then Some ErrPhoneRequired
  else None.

Definition buildRequestData (F : fmt_amount) (c : Config) (payment : Payment) : Values :=
  let data : Values := ∅ in
  let data := Set_ data "id" (IntegrationID c) in
  let data := Set_ data "reference" (Reference payment) in
  let data := Set_ data "amount" (Sprintf_2f F (Amount payment)) in
  let data := Set_ data "authemail" (AuthEmail payment) in
  let data := Set_ data "phone" (Phone payment) in
  let data := Set_ data "method" (Method payment) in
  let data := Set_ data "returnurl" (ReturnURL c) in
  let data := Set_ data "resulturl" (ResultURL c) in
  let data := Set_ data "status" "Message" in
  data.

(** [parseInitResponse] returns a response, an error, or both. *)
Definition parseInitResponse (c : Config) (body : string)
  : option InitResponse * option client_error :=
  match ParseQuery body with
  | (_, Some err) => (None, Some (ErrParseResponse err))
  | (values, None) =>
      let status := Get values "status" in
      match (if negb (String.eqb status "Error")
             then ValidateHash body (IntegrationKey c) else None) with
      | Some err => (None, Some (ErrHash err))
      | None =>
          let resp := {| Status := status;
                         BrowserURL := Get values "browserurl";
                         PollURL := Get values "pollurl";
                         Hash := Get values "hash";
                         Error := Get values "error" |} in
          if String.eqb status "Error"
          then (Some resp, Some (ErrPaynow (Get values "error")))
          else (Some resp, None)
      end
  end.

Definition parseStatusResponse (F : fmt_amount) (c : Config) (body : string)
  : client_error + StatusResponse :=
  match ParseQuery body with
  | (_, Some err) => inl (ErrParseStatusResponse err)
  | (values, None) =>
      match ValidateHash body (IntegrationKey c) with
      | Some err => inl (ErrHash err)
      | None =>
          match Sscanf_f F (Get values "amount") with
          | inl err => inl (ErrParseAmount err)
          | inr amount =>
              inr {| sr_Reference := Get values "reference";
                     sr_Amount := amount;
                     sr_PaynowReference := Get values "paynowreference";
                     sr_PollURL := Get values "pollurl";
                     sr_Status := Get values "status";
                     sr_Hash := Get values "hash" |}
          end
      end
  end.

(** The request [SendMobile] posts: the data of the payment, its method
    defaulted, with the signature set as the field [hash]. *)
Definition signed_request (F : fmt_amount) (c : Config) (payment : Payment) : Values :=
  let payment :=
    if String.eqb (Method payment) EmptyString
    then {| Reference := Reference payment; Amount := Amount payment;
            AuthEmail := AuthEmail payment; Phone := Phone payment;
            Method := MethodEcocash |}
    else payment in
  let data := buildRequestData F c payment in
  let requestHash := GenerateHash data (IntegrationKey c) in
  Set_ data "hash" requestHash.

Definition SendMobile {S} (F : fmt_amount) (c : Client S) (payment : Payment) (s : S)
  : (option InitResponse * option client_error) * S :=
  match validatePayment payment with
  | Some err => ((None, Some err), s)
  | None =>
      let data := signed_request F (config c) payment in
      let '(r, s) := PostForm (httpClient c) defaultInitiateURL data s in
      match r with
      | inl err => ((None, Some (ErrSendRequest err)), s)
      | inr response =>
          match Body response with
          | inl err => ((None, Some (ErrReadResponse err)), s)
          | inr body => (parseInitResponse (config c) body, s)
          end
      end
  end.

Definition PollTransaction {S} (F : fmt_amount) (c : Client S) (pollURL : string) (s : S)
  : (client_error + StatusResponse) * S :=
  let '(r, s) := HTTPGet (httpClient c) pollURL s in
  match r with
  | inl err => (inl (ErrPollTransaction err), s)
  | inr response =>
      match Body response with
      | inl err => (inl (ErrReadPollResponse err), s)
      | inr body => (parseStatusResponse F (config c) body, s)
      end
  end.

(** A mock client, as the tests build them: it answers every request
    with the same body and counts the requests it gets. *)
Definition mock_client (body : string) : HTTPClient nat :=
  {| PostForm := fun _ _ n => (inr {| Body := inr body |}, S n);
     HTTPGet := fun _ n => (inr {| Body := inr body |}, S n) |}.

(** An amount is written as [10.00] and read as [10]: the conversions
    of the payment of the tests, enough to run the client on it. *)
Definition fmt_ten : fmt_amount :=
  {| Sprintf_2f := fun _ => "10.00"; Sscanf_f := fun _ => inr 10%float |}.

Definition test_config : Config :=
  {| IntegrationID := "12345"; IntegrationKey := "test-key-123";
     ResultURL := "https://example.com/result";
     ReturnURL := "https://example.com/return" |}.

Definition test_payment : Payment :=
  {| Reference := "INV-001"; Amount := 10%float;
     AuthEmail := "customer@example.com"; Phone := "0771234567";
     Method := EmptyString |}.

(** The response [parseInitResponse] builds from the parsed body: every
    field is the first value of its name. *)
Definition init_response_of (body : string) (resp : InitResponse) : Prop :=
  exists values,
    ParseQuery body = (values, None) /\
    resp = {| Status := Get values "status";
              BrowserURL := Get values "browserurl";
              PollURL := Get values "pollurl";
              Hash := Get values "hash";
              Error := Get values "error" |}.

(** The names of the fields of a request, in increasing order. *)
Definition request_names : list string :=
  ["amount"; "authemail"; "id"; "method"; "phone"; "reference";
   "resulturl"; "returnurl"; "status"].

(** A body of 10001 parameters, the first one with a [;]. *)
Definition many_params : string :=
  String ";" (string_of_list_ascii (repeat "&"%char (Z.to_nat 10000))).

(** The body of the test [TestClient_PollTransaction_Success], for the
    key of [test_config]. *)
Definition poll_body : string :=
  "amount=10.00&paynowreference=12345678&pollurl=https%3A%2F%2Fwww.paynow.co.zw%2Finterface%2Fpoll%2F123&reference=INV-001&status=Paid&hash="
  +:+ sum_hex "10.0012345678https://www.paynow.co.zw/interface/poll/123INV-001Paidtest-key-123".

(* ===================================================================== *)
(** * Test vectors *)

Example sum_hex_abc :
  sum_hex "abc" = "DDAF35A193617ABACC417349AE20413112E6FA4E89A97EA20A9EEEE64B55D39A2192992A274FC1A836BA3C23A3FEEBBD454D4423643CE80E2A9AC94FA54CA49F".
Proof. vm_compute. reflexivity. Qed.

Example sum_hex_empty :
  sum_hex "" = "CF83E1357EEFB8BDF1542850D66D8007D620E4050B5715DC83F4A921D36CE9CE47D0D13C5D85F2B0FF8318D2877EEC2F63B931BD47417A81A538327AF927DA3E".
Proof. vm_compute. reflexivity. Qed.

Example sum_hex_two_chunks :
  sum_hex two_chunks = "EF978E23DC520404AE16FD17BDE9EE5945610D671551D6863A5FFBC99433FC726726E51F989B886191BE9325B8F8B03B1A63FE3E5EFF23D126C2F41F07D2BF87".
Proof. vm_compute. reflexivity. Qed.

(* ===================================================================== *)
(** * Strings: append and concatenation *)

Lemma append_nil_r (s : string) : s +:+ "" = s.
Proof. induction s as [|c s IH]; [reflexivity|]. change (String c (s +:+ "") = String c s). now rewrite IH. Qed.

Lemma append_cons (c : ascii) (s t : string) : String c s +:+ t = String c (s +:+ t).
Proof. reflexivity. Qed.

Lemma append_nil_l (s : string) : "" +:+ s = s.
Proof. reflexivity. Qed.

Lemma append_assoc (s t u : string) : (s +:+ t) +:+ u = s +:+ (t +:+ u).
Proof. induction s as [|c s IH]; [reflexivity|]. rewrite !append_cons. now rewrite IH. Qed.

Lemma length_append (s t : string) :
  String.length (s +:+ t) = (String.length s + String.length t)%nat.
Proof. induction s as [|c s IH]; [reflexivity|]. rewrite append_cons. simpl. now rewrite IH. Qed.

Lemma concat_all_app (l1 l2 : list string) :
  concat_all (l1 ++ l2) = concat_all l1 +:+ concat_all l2.
Proof.
  induction l1 as [|x l1 IH]; [reflexivity|].
  simpl. rewrite IH. now rewrite append_assoc.
Qed.

(** A builder that is written to in a loop holds the concatenation of
    what was written. *)
Lemma fold_WriteString {A} (f : A -> string) (l : list A) (b : string) :
  fold_left (fun b x => WriteString b (f x)) l b = b +:+ concat_all (List.map f l).
Proof.
  revert b. induction l as [|x l IH]; intros b; simpl.
  - now rewrite append_nil_r.
  - rewrite IH. unfold WriteString. now rewrite append_assoc.
Qed.

(* ===================================================================== *)
(** * The order on strings and [sort.Strings] *)

Section StringOrder.

Lemma string_compare_refl (s : string) : String.compare s s = Eq.
  Proof.
    induction s as [|c s IH]; simpl; [reflexivity|].
    unfold Ascii.compare. now rewrite N.compare_refl.
  Qed.

Lemma string_lt_le (s t : string) : string_lt s t -> String.le s t.
  Proof.
    unfold string_lt, String.le, String.ltb, String.leb.
    destruct (String.compare s t); simpl; congruence || tauto.
  Qed.

Lemma string_lt_neq (s t : string) : string_lt s t -> s <> t.
  Proof.
    unfold string_lt, String.ltb. intros H ->.
    rewrite string_compare_refl in H. discriminate.
  Qed.

Lemma StronglySorted_lt_le (l : list string) :
    StronglySorted string_lt l -> Sorted String.le l.
  Proof.
    intros H. apply StronglySorted_Sorted.
    induction H as [|a l Hl IH Ha]; constructor; [exact IH|].
    eapply Forall_impl; [exact Ha|]. intros x. apply string_lt_le.
  Qed.

Lemma StronglySorted_lt_NoDup (l : list string) :
    StronglySorted string_lt l -> NoDup l.
  Proof.
    induction 1 as [|a l Hl IH Ha]; constructor; [|exact IH].
    intros Hin. rewrite Forall_forall in Ha.
    exact (string_lt_neq _ _ (Ha a Hin) eq_refl).
  Qed.

Lemma Strings_sorted (x : list string) : Sorted String.le (Strings x).
  Proof. apply (Sorted_merge_sort String.le). Qed.

Lemma Strings_perm (x : list string) : Strings x ≡ₚ x.
  Proof. apply (merge_sort_Permutation String.le). Qed.

  (** A sorted arrangement of the same strings is the one [Strings]
      returns, whatever order they were given in. *)
Lemma Strings_unique (x y : list string) :
    Sorted String.le y -> y ≡ₚ x -> Strings x = y.
  Proof.
    intros Hs Hp. apply (Sorted_unique String.le).
    - apply Strings_sorted.
    - exact Hs.
    - rewrite Strings_perm. symmetry. exact Hp.
  Qed.

Lemma Strings_Permutation (x y : list string) :
    x ≡ₚ y -> Strings x = Strings y.
  Proof.
    intros Hp. apply Strings_unique; [apply Strings_sorted|].
    rewrite Strings_perm. symmetry. exact Hp.
  Qed.

Lemma filter_StronglySorted (f : string -> bool) (l : list string) :
    StronglySorted String.le l -> StronglySorted String.le (List.filter f l).
  Proof.
    induction 1 as [|a l Hl IH Ha]; simpl; [constructor|].
    destruct (f a); [|exact IH].
    constructor; [exact IH|].
    rewrite Forall_forall in *. intros x Hx.
    apply Ha. apply list_elem_of_In in Hx. apply list_elem_of_In.
    apply filter_In in Hx. tauto.
  Qed.

Lemma filter_Permutation (f : string -> bool) (l1 l2 : list string) :
    l1 ≡ₚ l2 -> List.filter f l1 ≡ₚ List.filter f l2.
  Proof.
    induction 1; simpl; repeat case_match; eauto using Permutation.
  Qed.

  (** Filtering commutes with sorting. *)
Lemma filter_Strings (f : string -> bool) (l : list string) :
    List.filter f (Strings l) = Strings (List.filter f l).
  Proof.
    symmetry. apply Strings_unique.
    - apply StronglySorted_Sorted, filter_StronglySorted.
      apply Sorted_StronglySorted; [apply _|apply Strings_sorted].
    - apply filter_Permutation, Strings_perm.
  Qed.

End StringOrder.

(* ===================================================================== *)
(** * The keys of a [Values] map *)

Section Keys.
Implicit Types (v values : Values) (k : string).

Lemma elem_of_range_keys v k : k ∈ range_keys v <-> is_Some (v !! k).
  Proof.
    unfold range_keys. rewrite list_elem_of_fmap. split.
    - intros [[k' x] [-> Hin]]. apply elem_of_map_to_list in Hin. eauto.
    - intros [x Hx]. exists (k, x). split; [reflexivity|].
      now apply elem_of_map_to_list.
  Qed.

Lemma NoDup_range_keys v : NoDup (range_keys v).
  Proof. apply NoDup_fst_map_to_list. Qed.

Lemma NoDup_List_filter (f : string -> bool) (l : list string) :
    NoDup l -> NoDup (List.filter f l).
  Proof.
    induction 1 as [|a l Ha Hl IH]; simpl; [constructor|].
    destruct (f a); [|exact IH].
    constructor; [|exact IH].
    intros Hin. apply Ha. apply list_elem_of_In in Hin. apply list_elem_of_In.
    apply filter_In in Hin. tauto.
  Qed.

Lemma elem_of_hash_keys values k :
    k ∈ hash_keys values <-> is_Some (values !! k) /\ is_hash k = false.
  Proof.
    unfold hash_keys. rewrite Strings_perm.
    rewrite list_elem_of_In, filter_In, <- list_elem_of_In, elem_of_range_keys.
    now rewrite negb_true_iff.
  Qed.

  (** The sorted list of the names to sign is characterised by being
      sorted, free of duplicates and holding exactly those names. *)
Lemma hash_keys_unique values (ks : list string) :
    Sorted String.le ks -> NoDup ks ->
    (forall k, k ∈ ks <-> is_Some (values !! k) /\ is_hash k = false) ->
    hash_keys values = ks.
  Proof.
    intros Hs Hn Hks. apply Strings_unique; [exact Hs|].
    apply NoDup_Permutation; [exact Hn| |].
    - apply NoDup_List_filter, NoDup_range_keys.
    - intros k. rewrite Hks.
      rewrite list_elem_of_In, filter_In, <- list_elem_of_In, elem_of_range_keys.
      now rewrite negb_true_iff.
  Qed.

  (** The order in which [range] yields the keys does not matter. *)
Lemma hash_keys_order_irrelevant values (order : list string) :
    order ≡ₚ range_keys values ->
    Strings (List.filter (fun k => negb (is_hash k)) order) = hash_keys values.
  Proof. intros Hp. apply Strings_Permutation, filter_Permutation, Hp. Qed.

  (** Two maps with the same names to sign give the same sorted list. *)
Lemma hash_keys_ext v1 v2 :
    (forall k, is_hash k = false -> is_Some (v1 !! k) <-> is_Some (v2 !! k)) ->
    hash_keys v1 = hash_keys v2.
  Proof.
    intros H. apply hash_keys_unique.
    - apply Strings_sorted.
    - unfold hash_keys. rewrite Strings_perm.
      apply NoDup_List_filter, NoDup_range_keys.
    - intros k. rewrite elem_of_hash_keys. split; intros [? ?]; split; try done.
      + now apply H.
      + now apply H.
  Qed.

Lemma GenerateHash_concat values K :
    GenerateHash values K =
    sum_hex (concat_all (List.map (Get values) (hash_keys values)) +:+ K).
  Proof.
    unfold GenerateHash, sum_hex. rewrite fold_WriteString. reflexivity.
  Qed.

  (** [GenerateHash] depends on the map only through the names to sign
      and the first value of each. *)
Lemma GenerateHash_ext v1 v2 K :
    (forall k, is_hash k = false -> is_Some (v1 !! k) <-> is_Some (v2 !! k)) ->
    (forall k, is_hash k = false -> Get v1 k = Get v2 k) ->
    GenerateHash v1 K = GenerateHash v2 K.
  Proof.
    intros Hdom Hget. rewrite !GenerateHash_concat.
    rewrite (hash_keys_ext v1 v2 Hdom). do 3 f_equal.
    apply map_ext_in. intros k Hk.
    apply list_elem_of_In, elem_of_hash_keys in Hk. apply Hget, Hk.
  Qed.

End Keys.

(* ===================================================================== *)
(** * The shape of a signature *)

Lemma length_be_bytes (n : nat) (x : Z) : length (be_bytes n x) = n.
Proof. induction n as [|n IH]; simpl; [reflexivity|]. now rewrite IH. Qed.

Lemma length_Sum512 (data : list Z) : length (Sum512 data) = 64%nat.
Proof. unfold Sum512. cbv zeta. rewrite !length_app, !length_be_bytes. reflexivity. Qed.

Lemma length_EncodeToString (src : list Z) :
  String.length (EncodeToString src) = (2 * length src)%nat.
Proof. induction src as [|v src IH]; simpl; [reflexivity|]. rewrite IH. lia. Qed.

Lemma length_map_bytes (f : ascii -> ascii) (s : string) :
  String.length (map_bytes f s) = String.length s.
Proof. induction s as [|c s IH]; simpl; [reflexivity|]. now rewrite IH. Qed.

Lemma length_sum_hex (s : string) : String.length (sum_hex s) = 128%nat.
Proof.
  unfold sum_hex, ToUpper.
  rewrite length_map_bytes, length_EncodeToString, length_Sum512. reflexivity.
Qed.

Lemma upper_hexdigit (n : Z) : is_upper_hex (upper_byte (hexdigit n)) = true.
Proof.
  unfold hexdigit. generalize (Z.to_nat n). intros i.
  do 17 (destruct i as [|i]; [vm_compute; reflexivity|]).
  destruct i; vm_compute; reflexivity.
Qed.

Lemma upper_hex_EncodeToString (src : list Z) :
  all_bytes is_upper_hex (ToUpper (EncodeToString src)) = true.
Proof.
  induction src as [|v src IH]; [reflexivity|].
  cbn [EncodeToString ToUpper map_bytes all_bytes].
  rewrite !upper_hexdigit. exact IH.
Qed.

Lemma upper_hex_sum_hex (s : string) : all_bytes is_upper_hex (sum_hex s) = true.
Proof. apply upper_hex_EncodeToString. Qed.

(* ===================================================================== *)
(** * GenerateHash *)

Example sum_hex_12key :
  sum_hex "12key" = "9EB0C2A4146C012EA227E738F40B12635F7D5D61D028CA55A02B04056894ABE3266F2759BA9F3BB1CB3D458CDBF319104CA5A78D83098E7014834E2D08AD9FB8".
Proof. vm_compute. reflexivity. Qed.

(** C1.  [GenerateHash] returns the upper-case hexadecimal SHA-512 digest
    of the values of the fields other than [hash] (in any letter case),
    concatenated in the strictly ascending byte-wise order of their
    names, followed by the secret: whenever [ks] lists exactly those
    names in ascending order, the result is [sum_hex] of the values of
    [ks] and the key.  On [{"a": "1", "b": "2"}] with the key [key] it is
    the digest of [12key]. *)
Theorem GenerateHash_sorted_values :
  (forall (values : Values) (integrationKey : string) (ks : list string),
      StronglySorted string_lt ks ->
      (forall k, k ∈ ks <-> is_Some (values !! k) /\ is_hash k = false) ->
      GenerateHash values integrationKey =
      sum_hex (concat_all (List.map (Get values) ks) +:+ integrationKey))
  /\ GenerateHash ab "key" = sum_hex "12key".
Proof.
  split.
  - intros values K ks Hs Hks. rewrite GenerateHash_concat.
    rewrite (hash_keys_unique values ks);
      auto using StronglySorted_lt_le, StronglySorted_lt_NoDup.
  - vm_compute. reflexivity.
Qed.

Lemma GenerateHash_sorted_values_witness :
  GenerateHash ab "key" = sum_hex (concat_all (List.map (Get ab) ["a"; "b"]) +:+ "key").
Proof.
  apply (proj1 GenerateHash_sorted_values ab "key" ["a"; "b"]).
  - repeat constructor.
  - intros k. split.
    + intros Hk. apply list_elem_of_In in Hk. simpl in Hk.
      destruct Hk as [<-|[<-|[]]]; (split; [vm_compute; eauto|reflexivity]).
    + intros [[x Hx] _]. unfold ab, Set_ in Hx.
      destruct (decide (k = "a")) as [->|Ha]; [set_solver|].
      destruct (decide (k = "b")) as [->|Hb]; [set_solver|].
      rewrite !lookup_insert_ne, lookup_empty in Hx by congruence. discriminate.
Defined.

(** C4.  Binding a field named [hash], in any letter case, to any value
    does not change the signature. *)
Theorem GenerateHash_ignores_hash_field
    (F : Values) (h v integrationKey : string) :
  is_hash h = true ->
  GenerateHash (Set_ F h v) integrationKey = GenerateHash F integrationKey.
Proof.
  intros Hh. apply GenerateHash_ext; intros k Hk.
  - unfold Set_. rewrite lookup_insert_ne; [reflexivity|congruence].
  - unfold Get, Set_. rewrite lookup_insert_ne; [reflexivity|congruence].
Qed.

Lemma GenerateHash_ignores_hash_field_witness :
  GenerateHash (Set_ ab "Hash" "some-existing-hash") "key" = GenerateHash ab "key".
Proof. apply GenerateHash_ignores_hash_field. reflexivity. Defined.

(** C8.  [GenerateHash] is a total function and its result has exactly
    128 characters, each one of [0-9] or [A-F]. *)
Theorem GenerateHash_format (values : Values) (integrationKey : string) :
  exists sig : string,
    GenerateHash values integrationKey = sig /\
    String.length sig = 128%nat /\
    all_bytes is_upper_hex sig = true.
Proof.
  eexists. split; [reflexivity|].
  rewrite GenerateHash_concat. split.
  - apply length_sum_hex.
  - apply upper_hex_sum_hex.
Qed.

(* ===================================================================== *)
(** * ValidateHash: the loop and the list of fields *)

Lemma last_cons {A} (x d : A) (l : list A) : List.last (x :: l) d = List.last l x.
Proof.
  revert x d. induction l as [|y l IH]; intros x d; [reflexivity|].
  change (List.last (y :: l) d = List.last (y :: l) x).
  now rewrite (IH y d), (IH y x).
Qed.

Lemma scan_cons (p : string) (rest : list string) (st : locals) :
  scan (p :: rest) st =
  match field_of p with
  | Some (key, value) =>
      if is_hash key then scan rest (Locals (hashString st) value)
      else match QueryUnescape value with
           | inl err => inl (DecodeError key err)
           | inr d => scan rest (Locals (WriteString (hashString st) d) (receivedHash st))
           end
  | None => scan rest st
  end.
Proof.
  unfold field_of. cbn [scan].
  destruct (SplitN p "=" 2) as [|a [|b [|c l]]]; reflexivity.
Qed.

(** The loop visits the fields in wire order: it leaves with the
    decoded values of the signed fields appended to the builder and with
    the value of the last field named [hash], or returns the error of the
    first signed field that does not decode. *)
Lemma scan_fields (pairs : list string) (st : locals) :
  scan pairs st =
  match decode_values (signed_fields pairs) with
  | inl e => inl e
  | inr ds =>
      inr (Locals (hashString st +:+ concat_all ds)
                  (List.last (hash_values pairs) (receivedHash st)))
  end.
Proof.
  revert st. induction pairs as [|p pairs IH]; intros [b r].
  - cbn. now rewrite append_nil_r.
  - rewrite scan_cons. unfold signed_fields, hash_values, fields in *.
    cbn [omap list_omap]. destruct (field_of p) as [[key value]|]; [|apply IH].
    cbn [List.filter fst]. destruct (is_hash key) eqn:Hk; cbn [negb].
    + rewrite IH. cbn [List.map snd hashString receivedHash].
      rewrite last_cons. reflexivity.
    + cbn [decode_values]. destruct (QueryUnescape value) as [err|d]; [reflexivity|].
      rewrite IH. cbn [hashString receivedHash].
      destruct (decode_values _) as [e|ds]; [reflexivity|].
      unfold WriteString. cbn [concat_all fold_right]. now rewrite append_assoc.
Qed.

(** [ValidateHash], on the fields of the payload. *)
Lemma ValidateHash_fields (rawBody integrationKey : string) :
  ValidateHash rawBody integrationKey =
  match decode_values (signed_fields (Split rawBody "&")) with
  | inl e => Some e
  | inr ds =>
      let expectedHash := sum_hex (concat_all ds +:+ integrationKey) in
      let receivedHash := received_signature (Split rawBody "&") in
      if String.eqb receivedHash expectedHash then None
      else Some (InvalidHash receivedHash expectedHash)
  end.
Proof.
  unfold ValidateHash. cbv zeta. rewrite scan_fields.
  destruct (decode_values _) as [e|ds]; [reflexivity|].
  cbn [hashString receivedHash locals_init]. reflexivity.
Qed.

(* ===================================================================== *)
(** * Splitting *)

Lemma Split_no_sep (s : string) (sep : ascii) :
  Count s sep = 0%nat -> Split s sep = [s].
Proof.
  induction s as [|c s IH]; cbn [Count Split]; [reflexivity|].
  destruct (Ascii.eqb c sep); [discriminate|].
  intros H. now rewrite (IH H).
Qed.

Lemma Split_append (t rest : string) (sep : ascii) :
  Count t sep = 0%nat ->
  Split (t +:+ String sep rest) sep = t :: Split rest sep.
Proof.
  induction t as [|c t IH]; cbn [Count].
  - intros _. rewrite append_nil_l. cbn [Split]. now rewrite Ascii.eqb_refl.
  - rewrite append_cons. cbn [Split].
    destruct (Ascii.eqb c sep); [discriminate|].
    intros H. now rewrite (IH H).
Qed.

Lemma Count_append (s t : string) (sep : ascii) :
  Count (s +:+ t) sep = (Count s sep + Count t sep)%nat.
Proof.
  induction s as [|c s IH]; [reflexivity|].
  rewrite append_cons. cbn [Count]. destruct (Ascii.eqb c sep); lia.
Qed.

Lemma Cut_no_sep (s : string) (sep : ascii) :
  Count s sep = 0%nat -> Cut s sep = None.
Proof.
  induction s as [|c s IH]; cbn [Count Cut]; [reflexivity|].
  destruct (Ascii.eqb c sep); [discriminate|].
  intros H. now rewrite (IH H).
Qed.

Lemma Cut_append (a b : string) (sep : ascii) :
  Count a sep = 0%nat -> Cut (a +:+ String sep b) sep = Some (a, b).
Proof.
  induction a as [|c a IH]; cbn [Count].
  - intros _. rewrite append_nil_l. cbn [Cut]. now rewrite Ascii.eqb_refl.
  - rewrite append_cons. cbn [Cut].
    destruct (Ascii.eqb c sep); [discriminate|].
    intros H. now rewrite (IH H).
Qed.

Lemma Cut_Count (s : string) (sep : ascii) (n : nat) :
  Count s sep = S n ->
  exists a b, Cut s sep = Some (a, b) /\ s = a +:+ String sep b /\
              Count a sep = 0%nat /\ Count b sep = n.
Proof.
  induction s as [|c s IH]; cbn [Count Cut]; [discriminate|].
  destruct (Ascii.eqb_spec c sep) as [->|Hne].
  - intros [= E]. exists "", s. auto.
  - intros E. destruct (IH E) as (a & b & -> & -> & Ha & Hb).
    exists (String c a), b. cbn [Count].
    destruct (Ascii.eqb_spec c sep); [congruence|]. auto.
Qed.

(** [Split] is [SplitN] with [n = Count(s, sep) + 1], as [genSplit]
    computes it. *)
Lemma Split_SplitN (s : string) (sep : ascii) :
  Split s sep = SplitN s sep (S (Count s sep)).
Proof.
  remember (Count s sep) as n eqn:En. symmetry in En. revert s En.
  induction n as [|n IH]; intros s En.
  - cbn [SplitN]. now apply Split_no_sep.
  - destruct (Cut_Count s sep n En) as (a & b & Hcut & -> & Ha & Hb).
    rewrite (Split_append _ _ _ Ha).
    change (SplitN (a +:+ String sep b) sep (S (S n)))
      with (match Cut (a +:+ String sep b) sep with
            | Some (a', b') => a' :: SplitN b' sep (S n)
            | None => [a +:+ String sep b]
            end).
    rewrite Hcut. f_equal. now apply IH.
Qed.

(** A token without [=] is not a field; a token with one is cut at the
    first. *)
Lemma field_of_no_eq (t : string) : Count t "=" = 0%nat -> field_of t = None.
Proof. intros H. unfold field_of. cbn [SplitN]. now rewrite (Cut_no_sep _ _ H). Qed.

Lemma field_of_append (k v : string) :
  Count k "=" = 0%nat -> field_of (k +:+ String "=" v) = Some (k, v).
Proof. intros H. unfold field_of. cbn [SplitN]. now rewrite (Cut_append _ _ _ H). Qed.

Lemma eqb_sum_hex_empty (s : string) : String.eqb "" (sum_hex s) = false.
Proof.
  apply String.eqb_neq. intros H.
  pose proof (length_sum_hex s) as L. rewrite <- H in L. discriminate.
Qed.

(* ===================================================================== *)
(** * ValidateHash *)

Example sum_hex_56s :
  sum_hex "56s" = "1B0F3B5FFDC7EA4475A533240AF4196B75ECD59C8DB7CE9A164F0E54D6E39E5CD3F3FDE1ED2B71BA47249FEABC855CF574C9CB45ECE9EB899C143984C3ECF0D8".
Proof. vm_compute. reflexivity. Qed.

Lemma ValidateHash_x5_y6 (H : string) :
  Count H "&" = 0%nat ->
  ValidateHash ("x=5&y=6&hash=" +:+ H) "s" =
  if String.eqb H (sum_hex "56s") then None else Some (InvalidHash H (sum_hex "56s")).
Proof.
  intros HH. rewrite ValidateHash_fields.
  change ("x=5&y=6&hash=" +:+ H) with ("x=5" +:+ String "&" ("y=6" +:+ String "&" ("hash=" +:+ H))).
  rewrite !Split_append by reflexivity.
  rewrite Split_no_sep by (rewrite Count_append; exact HH).
  assert (E1 : decode_values (signed_fields ["x=5"; "y=6"; "hash=" +:+ H]) = inr ["5"; "6"])
    by reflexivity.
  assert (E2 : received_signature ["x=5"; "y=6"; "hash=" +:+ H] = H) by reflexivity.
  rewrite E1, E2. reflexivity.
Qed.

Lemma fields_app (l1 l2 : list string) : fields (l1 ++ l2) = fields l1 ++ fields l2.
Proof. unfold fields. apply omap_app. Qed.

Lemma fields_cons (p : string) (l : list string) :
  fields (p :: l) = match field_of p with Some kv => kv :: fields l | None => fields l end.
Proof. reflexivity. Qed.

Lemma signed_fields_app (l1 l2 : list string) :
  signed_fields (l1 ++ l2) = signed_fields l1 ++ signed_fields l2.
Proof. unfold signed_fields. now rewrite fields_app, List.filter_app. Qed.

Lemma hash_values_app (l1 l2 : list string) :
  hash_values (l1 ++ l2) = hash_values l1 ++ hash_values l2.
Proof. unfold hash_values. now rewrite fields_app, List.filter_app, List.map_app. Qed.

Lemma filter_existsb_false {A} (f : A -> bool) (l : list A) :
  existsb f l = false -> List.filter f l = [].
Proof.
  induction l as [|x l IH]; cbn [existsb List.filter]; [reflexivity|].
  destruct (f x); [discriminate|]. exact IH.
Qed.

Lemma hash_values_none (pairs : list string) :
  has_hash_field pairs = false -> hash_values pairs = [].
Proof.
  unfold has_hash_field, hash_values. intros H.
  now rewrite (filter_existsb_false _ _ H).
Qed.

Lemma existsb_first {A} (f : A -> bool) (l : list A) :
  existsb f l = true ->
  exists pre x post, l = pre ++ x :: post /\ existsb f pre = false /\ f x = true.
Proof.
  induction l as [|a l IH]; cbn [existsb]; [discriminate|].
  destruct (f a) eqn:Ha.
  - intros _. exists [], a, l. auto.
  - intros H. destruct (IH H) as (pre & x & post & -> & Hpre & Hx).
    exists (a :: pre), x, post. cbn [existsb]. rewrite Ha. auto.
Qed.

(** The tokens before the first field that does not decode neither stop
    the loop nor matter for the error it returns. *)
Lemma scan_first_failure (pre post : list string) (p key value : string)
    (err : EscapeError) (st : locals) :
  existsb decode_fails pre = false ->
  field_of p = Some (key, value) ->
  is_hash key = false ->
  QueryUnescape value = inl err ->
  scan (pre ++ p :: post) st = inl (DecodeError key err).
Proof.
  intros Hpre Hp Hk Hv. revert st Hpre.
  induction pre as [|q pre IH]; intros st Hpre.
  - cbn [app]. now rewrite scan_cons, Hp, Hk, Hv.
  - cbn [existsb] in Hpre. apply orb_false_iff in Hpre as [Hq Hpre].
    cbn [app]. rewrite scan_cons. unfold decode_fails in Hq.
    destruct (field_of q) as [[k v]|]; [|now apply IH].
    destruct (is_hash k); [now apply IH|].
    destruct (QueryUnescape v); [discriminate|now apply IH].
Qed.

(** C2.  On [x=5&y=6&hash=<H>], where [H] is the value of the third pair,
    and the secret [s], [ValidateHash] succeeds exactly when [H] is the
    upper-case hexadecimal SHA-512 digest of [56s].  In general, when the
    values decode, it succeeds exactly when the received signature is the
    digest of the decoded values of the fields other than [hash], in the
    order of the text, followed by the secret: [y=6&x=5] is accepted
    with the digest of [65s] and rejected with the one of [56s]. *)
Theorem ValidateHash_wire_order :
  (forall H : string, Count H "&" = 0%nat ->
     (ValidateHash ("x=5&y=6&hash=" +:+ H) "s" = None <-> H = sum_hex "56s"))
  /\ (forall (rawBody integrationKey : string) (ds : list string),
        decode_values (signed_fields (Split rawBody "&")) = inr ds ->
        (ValidateHash rawBody integrationKey = None <->
         received_signature (Split rawBody "&") = sum_hex (concat_all ds +:+ integrationKey)))
  /\ ValidateHash ("y=6&x=5&hash=" +:+ sum_hex "65s") "s" = None
  /\ ValidateHash ("y=6&x=5&hash=" +:+ sum_hex "56s") "s" =
     Some (InvalidHash (sum_hex "56s") (sum_hex "65s")).
Proof.
  split; [|split; [|split]].
  - intros H HH. rewrite (ValidateHash_x5_y6 H HH).
    destruct (String.eqb_spec H (sum_hex "56s")) as [E|N]; split; congruence.
  - intros raw K ds Hds. rewrite ValidateHash_fields, Hds. cbv zeta.
    destruct (String.eqb_spec (received_signature (Split raw "&"))
                              (sum_hex (concat_all ds +:+ K))) as [E|N];
      split; congruence.
  - vm_compute. reflexivity.
  - vm_compute. reflexivity.
Qed.

(** A token without [=] after the signature is a further pair of the
    text, not a part of [H]; it is skipped. *)
Example token_after_signature :
  ValidateHash ("x=5&y=6&hash=" +:+ sum_hex "56s" +:+ "&junk") "s" = None.
Proof. vm_compute. reflexivity. Qed.

Lemma ValidateHash_wire_order_witness :
  ValidateHash ("x=5&y=6&hash=" +:+ sum_hex "56s") "s" = None
  /\ (ValidateHash "b=2&a=1&hash=X" "key" = None <->
      received_signature (Split "b=2&a=1&hash=X" "&") = sum_hex (concat_all ["2"; "1"] +:+ "key")).
Proof.
  split.
  - apply (proj1 ValidateHash_wire_order (sum_hex "56s")); [vm_compute|]; reflexivity.
  - apply (proj1 (proj2 ValidateHash_wire_order) "b=2&a=1&hash=X" "key" ["2"; "1"]).
    reflexivity.
Defined.

(** C5 (amended).  A token without any [=] is skipped by the loop: it
    raises no error and leaves the hash input and the received signature
    as they were, so that removing it from the payload does not change
    the result of [ValidateHash].  A token with one or more [=] is not
    skipped: it is split at its first [=], the name being what stands
    before and the value all that stands after, further [=] included,
    and the loop treats it as that field. *)
Theorem scan_token_by_eq :
  (forall t : string,
      Count t "=" = 0%nat ->
      (forall st, scan [t] st = inr st)
      /\ (forall pre post st, scan (pre ++ t :: post) st = scan (pre ++ post) st)
      /\ (forall rawBody rawBody' pre post integrationKey,
            Split rawBody "&" = pre ++ t :: post ->
            Split rawBody' "&" = pre ++ post ->
            ValidateHash rawBody integrationKey = ValidateHash rawBody' integrationKey))
  /\
  (forall t : string,
      Count t "=" <> 0%nat ->
      exists key value : string,
        t = key +:+ String "=" value /\
        Count key "=" = 0%nat /\
        SplitN t "=" 2 = [key; value] /\
        forall rest st,
          scan (t :: rest) st =
          if is_hash key then scan rest (Locals (hashString st) value)
          else match QueryUnescape value with
               | inl err => inl (DecodeError key err)
               | inr decodedValue =>
                   scan rest (Locals (WriteString (hashString st) decodedValue)
                                     (receivedHash st))
               end).
Proof.
  split.
  - intros t Ht. pose proof (field_of_no_eq t Ht) as Hf.
    assert (Hs : forall pre post, signed_fields (pre ++ t :: post) = signed_fields (pre ++ post)).
    { intros pre post. unfold signed_fields.
      now rewrite !fields_app, fields_cons, Hf. }
    assert (Hh : forall pre post, hash_values (pre ++ t :: post) = hash_values (pre ++ post)).
    { intros pre post. unfold hash_values.
      now rewrite !fields_app, fields_cons, Hf. }
    split; [|split].
    + intros st. now rewrite scan_cons, Hf.
    + intros pre post st. now rewrite !scan_fields, Hs, Hh.
    + intros raw raw' pre post K E E'.
      rewrite !ValidateHash_fields, E, E'. unfold received_signature.
      now rewrite Hs, Hh.
  - intros t Ht. destruct (Count t "=") as [|n] eqn:En; [congruence|].
    destruct (Cut_Count t "=" n En) as (key & value & Hcut & -> & Hk & _).
    exists key, value.
    assert (Hsplit : SplitN (key +:+ String "=" value) "=" 2 = [key; value]).
    { cbn [SplitN]. now rewrite Hcut. }
    repeat split; try assumption.
    intros rest st. cbn [scan]. rewrite Hsplit. reflexivity.
Qed.

Lemma scan_token_by_eq_witness :
  (scan ["x=5"; "junk"; "y=6"] locals_init = scan ["x=5"; "y=6"] locals_init
   /\ ValidateHash "x=5&junk&y=6" "s" = ValidateHash "x=5&y=6" "s")
  /\ exists key value : string,
       "url=https://example.com/?a=1" = key +:+ String "=" value /\
       Count key "=" = 0%nat /\
       SplitN "url=https://example.com/?a=1" "=" 2 = [key; value] /\
       forall rest st,
         scan ("url=https://example.com/?a=1" :: rest) st =
         if is_hash key then scan rest (Locals (hashString st) value)
         else match QueryUnescape value with
              | inl err => inl (DecodeError key err)
              | inr decodedValue =>
                  scan rest (Locals (WriteString (hashString st) decodedValue)
                                    (receivedHash st))
              end.
Proof.
  split; [split|].
  - apply (proj1 (proj2 (proj1 scan_token_by_eq "junk" eq_refl)) ["x=5"] ["y=6"]).
  - apply (proj2 (proj2 (proj1 scan_token_by_eq "junk" eq_refl))
             "x=5&junk&y=6" "x=5&y=6" ["x=5"] ["y=6"]); reflexivity.
  - apply (proj2 scan_token_by_eq "url=https://example.com/?a=1"). discriminate.
Defined.

Example SplitN_url :
  SplitN "url=https://example.com/?a=1" "=" 2 = ["url"; "https://example.com/?a=1"].
Proof. reflexivity. Qed.

(** C5, as stated, fails: the token [x=5=6] does not contain exactly one
    [=], yet it is not skipped; it is the field [x] with the value [5=6],
    which enters the hash input. *)
Lemma token_with_two_eq_is_hashed :
  Count "x=5=6" "=" <> 1%nat
  /\ scan ["x=5=6"] locals_init = inr (Locals "5=6" "")
  /\ scan ["x=5=6"] locals_init <> scan [] locals_init
  /\ ValidateHash ("x=5=6&hash=" +:+ sum_hex "5=6s") "s" = None
  /\ ValidateHash ("hash=" +:+ sum_hex "5=6s") "s" <> None.
Proof.
  split; [|split; [|split; [|split]]].
  - vm_compute. discriminate.
  - reflexivity.
  - vm_compute. discriminate.
  - vm_compute. reflexivity.
  - vm_compute. discriminate.
Qed.

(** C6, as stated, fails: [a=%] has no field named [hash], and
    [ValidateHash] returns the decode error of [a], not a mismatch. *)
Lemma no_hash_field_decode_error :
  has_hash_field (Split "a=%" "&") = false
  /\ ValidateHash "a=%" "k" = Some (DecodeError "a" "%")
  /\ forall received expected, ValidateHash "a=%" "k" <> Some (InvalidHash received expected).
Proof.
  split; [reflexivity|]. split; [reflexivity|].
  intros r e. vm_compute. discriminate.
Qed.

(** C6 (amended).  On a payload without a field named [hash],
    [ValidateHash] never succeeds: when the values of its fields decode,
    it returns the mismatch error whose received signature is the empty
    string and whose expected signature has 128 characters; otherwise it
    returns the decode error.  On [status=Error] and on the empty text it
    returns the mismatch error, for every secret. *)
Theorem ValidateHash_without_hash_field :
  (forall rawBody integrationKey : string,
      has_hash_field (Split rawBody "&") = false ->
      ValidateHash rawBody integrationKey =
      match decode_values (signed_fields (Split rawBody "&")) with
      | inl e => Some e
      | inr ds => Some (InvalidHash "" (sum_hex (concat_all ds +:+ integrationKey)))
      end)
  /\ (forall s, String.length (sum_hex s) = 128%nat)
  /\ (forall integrationKey,
        ValidateHash "status=Error" integrationKey =
        Some (InvalidHash "" (sum_hex ("Error" +:+ integrationKey))))
  /\ (forall integrationKey,
        ValidateHash "" integrationKey = Some (InvalidHash "" (sum_hex integrationKey))).
Proof.
  assert (G : forall raw K, has_hash_field (Split raw "&") = false ->
      ValidateHash raw K =
      match decode_values (signed_fields (Split raw "&")) with
      | inl e => Some e
      | inr ds => Some (InvalidHash "" (sum_hex (concat_all ds +:+ K)))
      end).
  { intros raw K Hno. rewrite ValidateHash_fields.
    destruct (decode_values _) as [e|ds]; [reflexivity|].
    unfold received_signature. rewrite (hash_values_none _ Hno).
    cbn [List.last]. cbv zeta. now rewrite eqb_sum_hex_empty. }
  split; [exact G|]. split; [exact length_sum_hex|]. split.
  - intros K. now rewrite G.
  - intros K. now rewrite G.
Qed.

Lemma ValidateHash_without_hash_field_witness :
  ValidateHash "status=Ok&browserurl=https://example.com" "test-integration-key" =
  Some (InvalidHash "" (sum_hex (concat_all ["Ok"; "https://example.com"] +:+ "test-integration-key"))).
Proof.
  apply (proj1 ValidateHash_without_hash_field
           "status=Ok&browserurl=https://example.com" "test-integration-key").
  reflexivity.
Defined.

(** C7.  When some field other than [hash] has a value that does not
    percent-decode, [ValidateHash] fails with the decode error of the
    first such field in wire order, which carries the name of that field
    and the error of [QueryUnescape]; this holds for every secret and
    whatever the signature in the payload, no comparison being made. *)
Theorem ValidateHash_decode_error (rawBody integrationKey : string) :
  existsb decode_fails (Split rawBody "&") = true ->
  exists (pre post : list string) (p key value : string) (err : EscapeError),
    Split rawBody "&" = pre ++ p :: post /\
    existsb decode_fails pre = false /\
    SplitN p "=" 2 = [key; value] /\
    is_hash key = false /\
    QueryUnescape value = inl err /\
    scan (Split rawBody "&") locals_init = inl (DecodeError key err) /\
    ValidateHash rawBody integrationKey = Some (DecodeError key err).
Proof.
  intros Hex. destruct (existsb_first _ _ Hex) as (pre & p & post & E & Hpre & Hp).
  unfold decode_fails in Hp.
  destruct (field_of p) as [[key value]|] eqn:Hf; [|discriminate].
  apply andb_true_iff in Hp as [Hk Hv]. apply negb_true_iff in Hk.
  destruct (QueryUnescape value) as [err|d] eqn:Hq; [|discriminate].
  exists pre, post, p, key, value, err.
  assert (Hscan : scan (Split rawBody "&") locals_init = inl (DecodeError key err)).
  { rewrite E. now apply scan_first_failure with (value := value). }
  repeat split; try assumption.
  - unfold field_of in Hf.
    destruct (SplitN p "=" 2) as [|a [|b [|c l]]]; congruence.
  - unfold ValidateHash. cbv zeta. now rewrite Hscan.
Qed.

Lemma ValidateHash_decode_error_witness :
  exists (pre post : list string) (p key value : string) (err : EscapeError),
    Split "status=Ok&a=%zz&b=%&hash=00" "&" = pre ++ p :: post /\
    existsb decode_fails pre = false /\
    SplitN p "=" 2 = [key; value] /\
    is_hash key = false /\
    QueryUnescape value = inl err /\
    scan (Split "status=Ok&a=%zz&b=%&hash=00" "&") locals_init = inl (DecodeError key err) /\
    ValidateHash "status=Ok&a=%zz&b=%&hash=00" "k" = Some (DecodeError key err).
Proof. apply ValidateHash_decode_error. reflexivity. Defined.

Example ValidateHash_decode_error_first :
  ValidateHash "status=Ok&a=%zz&b=%&hash=00" "k" = Some (DecodeError "a" "%zz").
Proof. reflexivity. Qed.

(** C9.  When the payload has fields named [hash] (in any letter case),
    the signature compared at the end is the value, as it stands in the
    text, of the last of them, and the hash input is made of the decoded
    values of the other fields only. *)
Theorem ValidateHash_last_hash_field
    (rawBody integrationKey : string) (pre post : list string) (p key value : string) :
  Split rawBody "&" = pre ++ p :: post ->
  SplitN p "=" 2 = [key; value] ->
  is_hash key = true ->
  has_hash_field post = false ->
  match decode_values (signed_fields (pre ++ post)) with
  | inl e => ValidateHash rawBody integrationKey = Some e
  | inr ds =>
      scan (Split rawBody "&") locals_init = inr (Locals (concat_all ds) value) /\
      ValidateHash rawBody integrationKey =
      (if String.eqb value (sum_hex (concat_all ds +:+ integrationKey)) then None
       else Some (InvalidHash value (sum_hex (concat_all ds +:+ integrationKey))))
  end.
Proof.
  intros E Hp Hk Hpost.
  assert (Hf : field_of p = Some (key, value)) by (unfold field_of; now rewrite Hp).
  assert (Hs : signed_fields (Split rawBody "&") = signed_fields (pre ++ post)).
  { rewrite E. unfold signed_fields.
    rewrite !fields_app, fields_cons, Hf, !List.filter_app.
    cbn [List.filter fst]. now rewrite Hk. }
  assert (Hh : List.last (hash_values (Split rawBody "&")) "" = value).
  { rewrite E. change (p :: post) with ([p] ++ post).
    rewrite !hash_values_app, (hash_values_none _ Hpost), app_nil_r.
    unfold hash_values at 2. rewrite fields_cons, Hf.
    cbn [fields omap list_omap List.filter fst]. rewrite Hk.
    cbn [List.map snd]. apply last_last. }
  rewrite ValidateHash_fields, scan_fields, Hs.
  destruct (decode_values _) as [e|ds]; [reflexivity|].
  cbn [locals_init hashString receivedHash]. unfold received_signature.
  rewrite Hh. split; reflexivity.
Qed.

Lemma ValidateHash_last_hash_field_witness :
  scan (Split "hash=AA&x=1+2&Hash=BB&y=3&HASH=%zz&z" "&") locals_init =
    inr (Locals (concat_all ["1 2"; "3"]) "%zz")
  /\ ValidateHash "hash=AA&x=1+2&Hash=BB&y=3&HASH=%zz&z" "k" =
     (if String.eqb "%zz" (sum_hex (concat_all ["1 2"; "3"] +:+ "k")) then None
      else Some (InvalidHash "%zz" (sum_hex (concat_all ["1 2"; "3"] +:+ "k")))).
Proof.
  apply (ValidateHash_last_hash_field "hash=AA&x=1+2&Hash=BB&y=3&HASH=%zz&z" "k"
           ["hash=AA"; "x=1+2"; "Hash=BB"; "y=3"] ["z"] "HASH=%zz" "HASH" "%zz");
    reflexivity.
Defined.

(* ===================================================================== *)
(** * Percent-encoding *)

Ltac each_byte c :=
  destruct c as [[] [] [] [] [] [] [] []].

Lemma QueryEscape_cons (c : ascii) (r : string) :
  QueryEscape (String c r) = escape_byte c +:+ QueryEscape r.
Proof.
  cbn [QueryEscape]. unfold escape_byte.
  destruct (Ascii.eqb c " "); [reflexivity|].
  destruct (shouldEscape c); reflexivity.
Qed.

(** Decoding undoes the encoding of one byte. *)
Lemma QueryUnescape_escape_byte (c : ascii) (t : string) :
  QueryUnescape (escape_byte c +:+ t) =
  match QueryUnescape t with
  | inl e => inl e
  | inr u => inr (String c u)
  end.
Proof. each_byte c; reflexivity. Qed.

Lemma QueryUnescape_QueryEscape (s : string) : QueryUnescape (QueryEscape s) = inr s.
Proof.
  induction s as [|c s IH]; [reflexivity|].
  now rewrite QueryEscape_cons, QueryUnescape_escape_byte, IH.
Qed.

Lemma Count_escape_byte (c : ascii) :
  Count (escape_byte c) "&" = 0%nat /\ Count (escape_byte c) "=" = 0%nat.
Proof. each_byte c; split; reflexivity. Qed.

(** The encoded text has neither [&] nor [=]. *)
Lemma Count_QueryEscape (s : string) :
  Count (QueryEscape s) "&" = 0%nat /\ Count (QueryEscape s) "=" = 0%nat.
Proof.
  induction s as [|c s [IH1 IH2]]; [split; reflexivity|].
  rewrite QueryEscape_cons, !Count_append, IH1, IH2.
  destruct (Count_escape_byte c) as [-> ->]. split; reflexivity.
Qed.

(** A byte is written as itself, or as an escape that starts with a byte
    that is not a letter; a letter, in either case, is written as itself. *)
Lemma escape_byte_cases (c : ascii) :
  escape_byte c = String c "" \/
  exists x rest, escape_byte c = String x rest /\
                 is_lower_letter (lower_byte x) = false /\
                 is_lower_letter (lower_byte c) = false.
Proof.
  each_byte c;
    first [ left; reflexivity
          | right; eexists _, _; split; [reflexivity|split; reflexivity] ].
Qed.

Lemma ToLower_QueryEscape (k t : string) :
  all_bytes is_lower_letter t = true ->
  ToLower (QueryEscape k) = t <-> ToLower k = t.
Proof.
  revert t. induction k as [|c k IH]; intros t Ht; [reflexivity|].
  rewrite QueryEscape_cons.
  destruct (escape_byte_cases c) as [-> | (x & rest & -> & Hx & Hc)].
  - rewrite append_cons, append_nil_l. unfold ToLower in *. cbn [map_bytes].
    destruct t as [|d t]; [split; discriminate|].
    cbn [all_bytes] in Ht. apply andb_true_iff in Ht as [_ Ht].
    specialize (IH t Ht).
    split; intros [= -> E]; f_equal; now apply IH.
  - rewrite append_cons. unfold ToLower. cbn [map_bytes].
    destruct t as [|d t]; [split; discriminate|].
    cbn [all_bytes] in Ht. apply andb_true_iff in Ht as [Hd _].
    split; intros [= E1 E2]; congruence.
Qed.

(** A name and its encoding are both named [hash], or neither is. *)
Lemma is_hash_QueryEscape (k : string) : is_hash (QueryEscape k) = is_hash k.
Proof.
  unfold is_hash. apply eq_iff_eq_true. rewrite !String.eqb_eq.
  now apply ToLower_QueryEscape.
Qed.

Lemma Count_upper_hex (s : string) :
  all_bytes is_upper_hex s = true -> Count s "&" = 0%nat.
Proof.
  induction s as [|c s IH]; cbn [all_bytes Count]; [reflexivity|].
  intros H. apply andb_true_iff in H as [Hc Hs].
  destruct (Ascii.eqb_spec c "&") as [->|_]; [discriminate|]. now apply IH.
Qed.

(* ===================================================================== *)
(** * The form body *)

Lemma Split_Join (toks : list string) :
  toks <> [] ->
  Forall (fun t => Count t "&" = 0%nat) toks ->
  Split (Join toks "&") "&" = toks.
Proof.
  induction toks as [|e toks IH]; [congruence|].
  intros _ Hall. apply Forall_cons in Hall as [He Hall].
  destruct toks as [|e' toks].
  - cbn [Join]. now apply Split_no_sep.
  - change (Join (e :: e' :: toks) "&") with (e +:+ String "&" (Join (e' :: toks) "&")).
    rewrite (Split_append _ _ _ He). f_equal. apply IH; [congruence|exact Hall].
Qed.

Lemma Count_encode_pair (k x : string) : Count (encode_pair k x) "&" = 0%nat.
Proof.
  unfold encode_pair. rewrite Count_append. cbn [Count Ascii.eqb Bool.eqb].
  destruct (Count_QueryEscape k) as [-> _].
  destruct (Count_QueryEscape x) as [-> _]. reflexivity.
Qed.

Lemma field_of_encode_pair (k x : string) :
  field_of (encode_pair k x) = Some (QueryEscape k, QueryEscape x).
Proof. apply field_of_append, Count_QueryEscape. Qed.

Section EncodedPairs.
Variable vals : string -> list string.

Lemma Count_pairs_of (keys : list string) :
  Forall (fun t => Count t "&" = 0%nat) (pairs_of vals keys).
Proof.
  apply Forall_forall. intros t Ht. apply list_elem_of_In in Ht.
  apply in_flat_map in Ht as (k & _ & Ht).
  apply in_map_iff in Ht as (x & <- & _). apply Count_encode_pair.
Qed.

Lemma fields_encoded (k : string) (xs : list string) :
  fields (List.map (encode_pair k) xs) =
  List.map (fun x => (QueryEscape k, QueryEscape x)) xs.
Proof.
  induction xs as [|x xs IH]; [reflexivity|].
  cbn [List.map]. now rewrite fields_cons, field_of_encode_pair, IH.
Qed.

Lemma decode_values_encoded (ek : string) (xs : list string) (fs : list (string * string)) :
  decode_values (List.map (fun x => (ek, QueryEscape x)) xs ++ fs) =
  match decode_values fs with
  | inl e => inl e
  | inr ds => inr (xs ++ ds)
  end.
Proof.
  induction xs as [|x xs IH]; cbn [List.map app].
  - destruct (decode_values fs); reflexivity.
  - cbn [decode_values]. rewrite QueryUnescape_QueryEscape, IH.
    destruct (decode_values fs); reflexivity.
Qed.

Lemma filter_encoded (f : string -> bool) (ek : string) (xs : list string) :
  List.filter (fun kv : string * string => f (fst kv))
              (List.map (fun x => (ek, QueryEscape x)) xs) =
  if f ek then List.map (fun x => (ek, QueryEscape x)) xs else [].
Proof.
  induction xs as [|x xs IH]; cbn [List.map List.filter fst].
  - now destruct (f ek).
  - rewrite IH. now destruct (f ek).
Qed.

(** The signed fields of an encoded body decode to the values of the
    names other than [hash], name after name. *)
Lemma decode_pairs_of (keys tail : list string) :
  decode_values (signed_fields (pairs_of vals keys ++ tail)) =
  match decode_values (signed_fields tail) with
  | inl e => inl e
  | inr ds =>
      inr (flat_map vals (List.filter (fun k => negb (is_hash k)) keys) ++ ds)
  end.
Proof.
  induction keys as [|k keys IH].
  - cbn. destruct (decode_values _); reflexivity.
  - unfold pairs_of in *. cbn [flat_map]. rewrite <- app_assoc.
    rewrite signed_fields_app. unfold signed_fields at 1.
    rewrite fields_encoded.
    rewrite (filter_encoded (fun k => negb (is_hash k))).
    rewrite is_hash_QueryEscape. cbn [List.filter].
    destruct (is_hash k); cbn [negb].
    + exact IH.
    + rewrite decode_values_encoded, IH.
      destruct (decode_values (signed_fields tail)); [reflexivity|].
      cbn [flat_map]. now rewrite app_assoc.
Qed.

End EncodedPairs.

Lemma concat_all_flat_map {A} (f : A -> list string) (l : list A) :
  concat_all (flat_map f l) = concat_all (List.map (fun x => concat_all (f x)) l).
Proof.
  induction l as [|x l IH]; [reflexivity|].
  cbn [flat_map List.map]. rewrite concat_all_app, IH. reflexivity.
Qed.

Lemma hash_values_snoc (pairs : list string) (sig : string) :
  List.last (hash_values (pairs ++ ["hash" +:+ String "=" sig])) "" = sig.
Proof.
  rewrite hash_values_app. unfold hash_values at 2.
  rewrite fields_cons, field_of_append by reflexivity.
  cbn [fields omap list_omap List.filter fst].
  change (is_hash "hash") with true. cbn [List.map snd]. apply last_last.
Qed.

(** What the verifier hashes on the encoded body of a field set. *)
Lemma ValidateHash_wire_text (values : Values) (sig integrationKey : string) :
  Count sig "&" = 0%nat ->
  ValidateHash (wire_text values sig) integrationKey =
  let expectedHash :=
    sum_hex (concat_all (flat_map (values_of values) (hash_keys values)) +:+ integrationKey) in
  if String.eqb sig expectedHash then None else Some (InvalidHash sig expectedHash).
Proof.
  intros Hsig. rewrite ValidateHash_fields. unfold wire_text.
  unfold encode_pairs.
  change ("hash=" +:+ sig) with ("hash" +:+ String "=" sig).
  rewrite Split_Join.
  - rewrite decode_pairs_of. unfold received_signature. rewrite hash_values_snoc.
    unfold signed_fields at 1. rewrite fields_cons, field_of_append by reflexivity.
    cbn [fields omap list_omap List.filter fst]. change (is_hash "hash") with true.
    cbn [negb decode_values]. rewrite app_nil_r, filter_Strings. reflexivity.
  - intros E. now apply app_eq_nil in E as [_ E].
  - apply Forall_app. split; [apply Count_pairs_of|].
    constructor; [|constructor]. rewrite Count_append. cbn [Count Ascii.eqb Bool.eqb].
    now rewrite Hsig.
Qed.

(** C3.  Round trip: a field set in which no name has several values,
    signed with [GenerateHash] and written as the form body of its
    fields in sorted-name order with percent-encoded names and values,
    followed by [hash=<sig>], is accepted by [ValidateHash] with the
    same secret. *)
Theorem sign_then_verify (F : Values) (integrationKey : string) :
  single_valued F ->
  ValidateHash (wire_text F (GenerateHash F integrationKey)) integrationKey = None.
Proof.
  intros Hsv. rewrite ValidateHash_wire_text.
  - cbv zeta. rewrite GenerateHash_concat.
    replace (concat_all (flat_map (values_of F) (hash_keys F)))
      with (concat_all (List.map (Get F) (hash_keys F))).
    + now rewrite String.eqb_refl.
    + rewrite concat_all_flat_map. f_equal. apply map_ext. intros k.
      unfold Get, values_of. destruct (F !! k) as [vs|] eqn:Hk; [|reflexivity].
      specialize (Hsv k vs Hk). destruct vs as [|x [|y vs]]; cbn in *; try lia.
      * reflexivity.
      * now rewrite append_nil_r.
  - rewrite GenerateHash_concat. apply Count_upper_hex, upper_hex_sum_hex.
Qed.

Lemma single_valued_empty : single_valued ∅.
Proof. intros k vs H. rewrite lookup_empty in H. discriminate. Qed.

Lemma single_valued_Set (v : Values) (key value : string) :
  single_valued v -> single_valued (Set_ v key value).
Proof.
  intros Hv k vs. unfold Set_. destruct (decide (key = k)) as [->|Hne].
  - rewrite lookup_insert_eq. intros [= <-]. cbn. lia.
  - rewrite lookup_insert_ne by exact Hne. apply Hv.
Qed.

Lemma sign_then_verify_witness :
  ValidateHash (wire_text payment (GenerateHash payment "test-key-123")) "test-key-123" = None.
Proof.
  apply sign_then_verify.
  unfold payment. repeat apply single_valued_Set. apply single_valued_empty.
Defined.

(* ===================================================================== *)
(** * The body the client posts

    [SendMobile] signs the request, adds the signature with
    [data.Set("hash", requestHash)] and posts [data.Encode()]: the pair
    [hash] stands at its sorted place, after every other spelling of the
    name.  The verifier accepts that body too. *)

Lemma lower_byte_inv (c d : ascii) :
  lower_byte c = d -> is_lower_letter d = true -> c = d \/ c = upper_byte d.
Proof.
  each_byte c; intros <- H;
    first [ discriminate H | left; reflexivity | right; reflexivity ].
Qed.

(** Of the spellings of [hash], the lower-case one is the greatest. *)
Lemma is_hash_le (k : string) : is_hash k = true -> String.le k "hash".
Proof.
  unfold is_hash. rewrite String.eqb_eq.
  destruct k as [|c1 [|c2 [|c3 [|c4 [|c5 k]]]]]; cbn; try discriminate.
  intros [= E1 E2 E3 E4].
  apply lower_byte_inv in E1, E2, E3, E4; try reflexivity.
  destruct E1 as [-> | ->], E2 as [-> | ->], E3 as [-> | ->], E4 as [-> | ->];
    vm_compute; exact I.
Qed.

Lemma sorted_greatest_last (l : list string) (x : string) :
  StronglySorted String.le l -> NoDup l -> x ∈ l ->
  (forall y, y ∈ l -> String.le y x) ->
  exists l', l = l' ++ [x].
Proof.
  induction 1 as [|a l Hs IH Ha]; intros Hnd Hx Hmax.
  - now apply elem_of_nil in Hx.
  - apply NoDup_cons in Hnd as [Hal Hnd].
    destruct l as [|b l].
    + apply list_elem_of_singleton in Hx as ->. now exists [].
    + assert (Hxl : x ∈ b :: l).
      { apply elem_of_cons in Hx as [->|Hx]; [|exact Hx]. exfalso. apply Hal.
        assert (b = a) as ->; [|left].
        apply (anti_symm String.le).
        - apply Hmax. right. left.
        - apply Forall_cons in Ha as [Hab _]. exact Hab. }
      destruct (IH Hnd Hxl) as [l' E].
      { intros y Hy. apply Hmax. now right. }
      exists (a :: l'). now rewrite E.
Qed.

Lemma hash_values_pairs_of (vals : string -> list string) (keys : list string) :
  hash_values (pairs_of vals keys) =
  flat_map (fun k => List.map QueryEscape (vals k)) (List.filter is_hash keys).
Proof.
  induction keys as [|k keys IH]; [reflexivity|].
  unfold pairs_of in *. cbn [flat_map]. rewrite hash_values_app, IH.
  unfold hash_values at 1. rewrite fields_encoded, (filter_encoded is_hash).
  rewrite is_hash_QueryEscape. cbn [List.filter].
  destruct (is_hash k); [|reflexivity].
  cbn [flat_map]. f_equal. rewrite List.map_map. reflexivity.
Qed.

Lemma QueryEscape_upper_hex (s : string) :
  all_bytes is_upper_hex s = true -> QueryEscape s = s.
Proof.
  induction s as [|c s IH]; [reflexivity|].
  cbn [all_bytes]. intros H. apply andb_true_iff in H as [Hc Hs].
  rewrite QueryEscape_cons, (IH Hs).
  assert (E : escape_byte c = String c "").
  { revert Hc. each_byte c; intros Hc; first [discriminate Hc | reflexivity]. }
  now rewrite E.
Qed.

Lemma posted_body_verifies (F : Values) (integrationKey : string) :
  single_valued F ->
  ValidateHash (Encode (Set_ F "hash" (GenerateHash F integrationKey))) integrationKey = None.
Proof.
  intros Hsv.
  set (sig := GenerateHash F integrationKey).
  set (F' := Set_ F "hash" sig).
  assert (Hhex : all_bytes is_upper_hex sig = true).
  { unfold sig. rewrite GenerateHash_concat. apply upper_hex_sum_hex. }
  assert (Hkeys : hash_keys F' = hash_keys F).
  { apply hash_keys_ext. intros k Hk. unfold F', Set_.
    rewrite lookup_insert_ne; [reflexivity|]. intros <-. discriminate. }
  assert (Hin : "hash" ∈ List.filter is_hash (Strings (range_keys F'))).
  { apply list_elem_of_In, filter_In. split; [|reflexivity].
    apply list_elem_of_In. rewrite Strings_perm. apply elem_of_range_keys.
    unfold F', Set_. rewrite lookup_insert_eq. eauto. }
  destruct (sorted_greatest_last (List.filter is_hash (Strings (range_keys F'))) "hash")
    as [l' El].
  { apply filter_StronglySorted, Sorted_StronglySorted; [apply _|apply Strings_sorted]. }
  { apply NoDup_List_filter. rewrite Strings_perm. apply NoDup_range_keys. }
  { exact Hin. }
  { intros y Hy. apply list_elem_of_In, filter_In in Hy. apply is_hash_le, Hy. }
  assert (Hv : values_of F' "hash" = [sig]).
  { unfold values_of, F', Set_. now rewrite lookup_insert_eq. }
  assert (Hh : hash_values (pairs_of (values_of F') (Strings (range_keys F'))) =
               flat_map (fun k => List.map QueryEscape (values_of F' k)) l' ++ [sig]).
  { rewrite hash_values_pairs_of, El, flat_map_app. cbn [flat_map].
    rewrite Hv. cbn [List.map]. now rewrite app_nil_r, (QueryEscape_upper_hex _ Hhex). }
  assert (Hd : concat_all (flat_map (values_of F') (hash_keys F)) =
               concat_all (List.map (Get F) (hash_keys F))).
  { rewrite concat_all_flat_map. f_equal. apply map_ext_in. intros k Hk.
    apply list_elem_of_In, elem_of_hash_keys in Hk as [_ Hk].
    unfold Get, values_of, F', Set_.
    rewrite lookup_insert_ne by (intros <-; discriminate).
    destruct (F !! k) as [vs|] eqn:E; [|reflexivity].
    specialize (Hsv k vs E). destruct vs as [|x [|y vs]]; cbn in *; try lia.
    - reflexivity.
    - now rewrite append_nil_r. }
  rewrite ValidateHash_fields. unfold Encode, encode_pairs. fold F'.
  rewrite Split_Join.
  - rewrite <- (app_nil_r (pairs_of _ _)) at 1. rewrite decode_pairs_of.
    change (decode_values (signed_fields [])) with (@inr error _ (@nil string)).
    cbv iota beta zeta. rewrite app_nil_r, filter_Strings. fold (hash_keys F').
    unfold received_signature. rewrite Hkeys, Hh, last_last, Hd.
    unfold sig. rewrite GenerateHash_concat. now rewrite String.eqb_refl.
  - intros E. apply (f_equal hash_values) in E. rewrite Hh in E.
    now apply app_eq_nil in E as [_ E].
  - apply Count_pairs_of.
Qed.

Example wire_text_payment :
  wire_text payment "00" =
  "Hash=some-existing-hash&amount=10.00&returnurl=https%3A%2F%2Fexample.com%2Freturn%3Fa%3D1%26b%3D2+3&hash=00".
Proof. vm_compute. reflexivity. Qed.

Example posted_body_payment :
  Encode (Set_ ab "hash" "00") = "a=1&b=2&hash=00" /\
  ValidateHash (Encode (Set_ payment "hash" (GenerateHash payment "test-key-123")))
               "test-key-123" = None.
Proof. split; vm_compute; reflexivity. Qed.

(** A name with several values is outside the round trip: the signer
    takes the first value, the body carries them all. *)
Example two_values_rejected :
  wire_text two_values "00" = "a=1&a=2&hash=00" /\
  ValidateHash (wire_text two_values (GenerateHash two_values "key")) "key" =
  Some (InvalidHash (sum_hex "1key") (sum_hex "12key")).
Proof. split; vm_compute; reflexivity. Qed.

(* ===================================================================== *)
(** * url.ParseQuery, token by token *)

Lemma Cut_Some_inv (s : string) (sep : ascii) (a b : string) :
  Cut s sep = Some (a, b) -> s = a +:+ String sep b /\ Count a sep = 0%nat.
Proof.
  revert a. induction s as [|c s IH]; intros a; cbn [Cut]; [discriminate|].
  destruct (Ascii.eqb_spec c sep) as [->|Hne].
  - intros [= <- <-]. split; reflexivity.
  - destruct (Cut s sep) as [[a' b']|]; [|discriminate].
    intros [= <- <-]. destruct (IH a' eq_refl) as [-> Ha].
    split; [reflexivity|]. cbn [Count].
    destruct (Ascii.eqb_spec c sep); [congruence|exact Ha].
Qed.

Lemma Cut_None_inv (s : string) (sep : ascii) :
  Cut s sep = None -> Count s sep = 0%nat.
Proof.
  induction s as [|c s IH]; cbn [Cut Count]; [reflexivity|].
  destruct (Ascii.eqb c sep); [discriminate|].
  destruct (Cut s sep) as [[a b]|]; [discriminate|]. intros _. now apply IH.
Qed.

Lemma parse_token_empty (st : Values * option query_error) : parse_token st "" = st.
Proof. destruct st as [m err]. reflexivity. Qed.

Lemma parseQuery_Split (fuel : nat) (st : Values * option query_error) (query : string) :
  (String.length query < fuel)%nat ->
  parseQuery fuel st query = fold_left parse_token (Split query "&") st.
Proof.
  revert st query. induction fuel as [|fuel IH]; intros st query Hlen; [lia|].
  cbn [parseQuery]. destruct (String.eqb_spec query "") as [->|Hne].
  - cbn [Split fold_left]. now rewrite parse_token_empty.
  - unfold Cut2. destruct (Cut query "&") as [[a b]|] eqn:Hcut.
    + apply Cut_Some_inv in Hcut as [-> Ha].
      rewrite (Split_append _ _ _ Ha). cbn [fold_left]. apply IH.
      rewrite length_append in Hlen. cbn [String.length] in Hlen. lia.
    + apply Cut_None_inv in Hcut. rewrite (Split_no_sep _ _ Hcut). cbn [fold_left].
      destruct fuel; reflexivity.
Qed.

(** [ParseQuery] handles the tokens between the [&] one after the
    other, the empty ones included (they change nothing). *)
Lemma ParseQuery_Split (query : string) :
  urlParamsWithinMax (Z.of_nat (Count query "&") + 1) = true ->
  ParseQuery query = fold_left parse_token (Split query "&") (∅, None).
Proof. intros H. unfold ParseQuery. rewrite H. apply parseQuery_Split. lia. Qed.

Lemma ParseQuery_limit (query : string) :
  urlParamsWithinMax (Z.of_nat (Count query "&") + 1) = false ->
  ParseQuery query = (∅, Some LimitError).
Proof. intros H. unfold ParseQuery. now rewrite H. Qed.

(** The error of a turn depends on the token and on the error so far,
    not on the map. *)
Lemma parse_token_error (m m' : Values) (err : option query_error) (t : string) :
  snd (parse_token (m, err) t) = snd (parse_token (m', err) t).
Proof.
  unfold parse_token. destruct (Contains t ";"); [reflexivity|].
  destruct (String.eqb t ""); [reflexivity|].
  destruct (Cut2 t "=") as [k v].
  destruct (QueryUnescape k); [reflexivity|].
  destruct (QueryUnescape v); reflexivity.
Qed.

Lemma parse_token_keeps_error (st : Values * option query_error) (t : string) :
  snd st <> None -> snd (parse_token st t) <> None.
Proof.
  destruct st as [m [e|]]; [intros _|intros H; now destruct H]. unfold parse_token.
  destruct (Contains t ";"); [discriminate|].
  destruct (String.eqb t ""); [discriminate|].
  destruct (Cut2 t "=") as [k v].
  destruct (QueryUnescape k); [discriminate|].
  destruct (QueryUnescape v); discriminate.
Qed.

Lemma fold_parse_token_keeps_error (l : list string) (st : Values * option query_error) :
  snd st <> None -> snd (fold_left parse_token l st) <> None.
Proof.
  revert st. induction l as [|t l IH]; intros st H; [exact H|].
  cbn [fold_left]. now apply IH, parse_token_keeps_error.
Qed.

(** A token that [ParseQuery] takes without error is not a field whose
    value fails to decode. *)
Lemma parse_token_ok_decodes (m : Values) (t : string) :
  snd (parse_token (m, None) t) = None -> decode_fails t = false.
Proof.
  unfold parse_token, decode_fails, field_of, Cut2. cbn [SplitN].
  destruct (Contains t ";"); [discriminate|].
  destruct (String.eqb_spec t "") as [->|_]; [reflexivity|].
  destruct (Cut t "=") as [[k v]|]; [|reflexivity].
  destruct (QueryUnescape k); [discriminate|].
  destruct (QueryUnescape v); [discriminate|].
  intros _. apply andb_false_r.
Qed.

Lemma fold_parse_token_ok (l : list string) (st : Values * option query_error) :
  snd (fold_left parse_token l st) = None -> existsb decode_fails l = false.
Proof.
  revert st. induction l as [|t l IH]; intros [m err] H; [reflexivity|].
  cbn [fold_left existsb] in *.
  destruct err as [e|].
  { exfalso. revert H. apply fold_parse_token_keeps_error, parse_token_keeps_error.
    discriminate. }
  destruct (snd (parse_token (m, None) t)) eqn:E.
  { exfalso. revert H. apply fold_parse_token_keeps_error. rewrite E. discriminate. }
  rewrite (parse_token_ok_decodes m t E). cbn [orb]. exact (IH _ H).
Qed.

Lemma decode_values_no_failure (pairs : list string) :
  existsb decode_fails pairs = false ->
  exists ds, decode_values (signed_fields pairs) = inr ds.
Proof.
  induction pairs as [|p pairs IH]; [exists []; reflexivity|].
  cbn [existsb]. intros H. apply orb_false_iff in H as [Hp Hl].
  destruct (IH Hl) as [ds Hds].
  unfold signed_fields in *. rewrite fields_cons. unfold decode_fails in Hp.
  destruct (field_of p) as [[k v]|]; [|eauto].
  cbn [List.filter fst]. destruct (is_hash k); cbn [negb] in *; [eauto|].
  cbn [decode_values]. destruct (QueryUnescape v); [discriminate|].
  rewrite Hds. eauto.
Qed.

(** After a parse without error the verifier has nothing left that
    could fail to decode. *)
Lemma ParseQuery_ok_decodes (body : string) :
  snd (ParseQuery body) = None ->
  exists ds, decode_values (signed_fields (Split body "&")) = inr ds.
Proof.
  destruct (urlParamsWithinMax (Z.of_nat (Count body "&") + 1)) eqn:Hmax.
  - rewrite (ParseQuery_Split _ Hmax). intros H.
    apply decode_values_no_failure, (fold_parse_token_ok _ _ H).
  - rewrite (ParseQuery_limit _ Hmax). discriminate.
Qed.

Lemma ValidateHash_after_parse (body key : string) :
  snd (ParseQuery body) = None ->
  ValidateHash body key = None \/
  exists received expected, ValidateHash body key = Some (InvalidHash received expected).
Proof.
  intros H. destruct (ParseQuery_ok_decodes body H) as [ds Hds].
  rewrite ValidateHash_fields, Hds. cbv zeta.
  destruct (String.eqb _ _); eauto.
Qed.

(** X1.  When [url.ParseQuery] accepts a body, [ValidateHash] on the
    same body returns [nil] or the mismatch error, never a decode error:
    the parsers call [ValidateHash] only after such a parse. *)
Theorem ParseQuery_ok_no_decode_error (body integrationKey : string) (values : Values) :
  ParseQuery body = (values, None) ->
  ValidateHash body integrationKey = None \/
  exists receivedHash expectedHash,
    ValidateHash body integrationKey = Some (InvalidHash receivedHash expectedHash).
Proof. intros H. apply ValidateHash_after_parse. now rewrite H. Qed.

Lemma ParseQuery_ok_no_decode_error_witness :
  ValidateHash "status=Ok&message=Payment+successful&hash=00" "key123" = None \/
  exists receivedHash expectedHash,
    ValidateHash "status=Ok&message=Payment+successful&hash=00" "key123" =
    Some (InvalidHash receivedHash expectedHash).
Proof.
  apply (ParseQuery_ok_no_decode_error _ _
           (fst (ParseQuery "status=Ok&message=Payment+successful&hash=00"))).
  vm_compute. reflexivity.
Defined.

(* ===================================================================== *)
(** * Semicolons *)

Lemma Contains_Split (s : string) (c : ascii) :
  c <> "&"%char -> Contains s c = true ->
  existsb (fun t => Contains t c) (Split s "&") = true.
Proof.
  intros Hc. unfold Contains.
  induction s as [|x s IH]; cbn [Count Split]; [discriminate|].
  destruct (Ascii.eqb_spec x "&") as [->|Hx].
  - destruct (Ascii.eqb_spec "&" c) as [E|_]; [congruence|].
    intros H. cbn [existsb Count]. apply IH, H.
  - destruct (Split s "&") as [|h t] eqn:Es.
    + intros _. cbn [existsb Count]. destruct (Ascii.eqb x c); [reflexivity|].
      exfalso. destruct s; cbn in Es; repeat case_match; discriminate.
    + cbn [existsb Count] in *.
      destruct (Ascii.eqb x c); [intros _; reflexivity|exact IH].
Qed.

Lemma fold_parse_token_semicolon_kept (l : list string) (m : Values) :
  snd (fold_left parse_token l (m, Some SemicolonError)) = Some SemicolonError.
Proof.
  revert m. induction l as [|t l IH]; intros m; [reflexivity|].
  cbn [fold_left]. unfold parse_token at 2.
  destruct (Contains t ";"); [apply IH|].
  destruct (String.eqb t ""); [apply IH|].
  destruct (Cut2 t "=") as [k v].
  destruct (QueryUnescape k); [apply IH|].
  destruct (QueryUnescape v); apply IH.
Qed.

Lemma fold_parse_token_semicolon (l : list string) (st : Values * option query_error) :
  existsb (fun t => Contains t ";") l = true ->
  snd (fold_left parse_token l st) = Some SemicolonError.
Proof.
  revert st. induction l as [|t l IH]; intros [m err]; cbn [existsb]; [discriminate|].
  cbn [fold_left]. destruct (Contains t ";") eqn:Ht.
  - intros _. unfold parse_token. rewrite Ht. apply fold_parse_token_semicolon_kept.
  - cbn [orb]. apply IH.
Qed.

(** A semicolon anywhere in a query within the limit is the error
    [ParseQuery] returns, before any other; beyond the limit the error
    is the one of the limit. *)
Lemma ParseQuery_semicolon (query : string) :
  Contains query ";" = true ->
  snd (ParseQuery query) =
  Some (if urlParamsWithinMax (Z.of_nat (Count query "&") + 1)
        then SemicolonError else LimitError).
Proof.
  intros H. destruct (urlParamsWithinMax (Z.of_nat (Count query "&") + 1)) eqn:Hmax.
  - rewrite (ParseQuery_Split _ Hmax).
    apply fold_parse_token_semicolon, Contains_Split; [discriminate|exact H].
  - now rewrite (ParseQuery_limit _ Hmax).
Qed.

(** X2.  A body with a semicolon anywhere is rejected by both parsers
    with the parse error of [url.ParseQuery], whatever its signature:
    the error of the semicolon when the body has at most 10000
    parameters, the error of the parameter limit when it has more. *)
Theorem semicolon_rejected (F : fmt_amount) (c : Config) (body : string) :
  Contains body ";" = true ->
  let err := if urlParamsWithinMax (Z.of_nat (Count body "&") + 1)
             then SemicolonError else LimitError in
  parseInitResponse c body = (None, Some (ErrParseResponse err)) /\
  parseStatusResponse F c body = inl (ErrParseStatusResponse err).
Proof.
  intros H err. apply ParseQuery_semicolon in H. fold err in H.
  unfold parseInitResponse, parseStatusResponse.
  destruct (ParseQuery body) as [values e]. cbn [snd] in H. subst e.
  split; reflexivity.
Qed.

Lemma semicolon_rejected_witness :
  (parseInitResponse test_config ("status=Ok;x=1&hash=" +:+ sum_hex "Ok;x=1test-key-123") =
     (None, Some (ErrParseResponse SemicolonError)) /\
   parseStatusResponse fmt_ten test_config ("status=Ok;x=1&hash=" +:+ sum_hex "Ok;x=1test-key-123") =
     inl (ErrParseStatusResponse SemicolonError)) /\
  (parseInitResponse test_config many_params = (None, Some (ErrParseResponse LimitError)) /\
   parseStatusResponse fmt_ten test_config many_params =
     inl (ErrParseStatusResponse LimitError)).
Proof.
  split.
  - apply (semicolon_rejected fmt_ten test_config
             ("status=Ok;x=1&hash=" +:+ sum_hex "Ok;x=1test-key-123")).
    vm_compute. reflexivity.
  - apply (semicolon_rejected fmt_ten test_config many_params).
    vm_compute. reflexivity.
Defined.

Example semicolon_body_is_signed :
  ValidateHash ("status=Ok;x=1&hash=" +:+ sum_hex "Ok;x=1test-key-123") "test-key-123" = None.
Proof. vm_compute. reflexivity. Qed.

(* ===================================================================== *)
(** * What the two parsers return *)

(** X3.  The outcomes of [parseInitResponse].  A response without
    error has a status other than [Error] and a body that
    [ValidateHash] accepts; a response together with an error has the
    status [Error] and the error carries its [error] field; an error
    alone is the parse error or the mismatch error of [ValidateHash];
    one of the two is returned.  No signature is checked for the status
    [Error]: every body that parses and whose first status is [Error]
    gives the response together with that error, whatever
    [ValidateHash] makes of the body. *)
Theorem parseInitResponse_outcomes (c : Config) (body : string) :
  (match parseInitResponse c body with
  | (Some resp, None) =>
      init_response_of body resp /\
      Status resp <> "Error" /\
      ValidateHash body (IntegrationKey c) = None
  | (Some resp, Some e) =>
      init_response_of body resp /\
      Status resp = "Error" /\
      e = ErrPaynow (Error resp)
  | (None, Some e) =>
      (exists qe, snd (ParseQuery body) = Some qe /\ e = ErrParseResponse qe) \/
      (exists receivedHash expectedHash,
          ValidateHash body (IntegrationKey c) = Some (InvalidHash receivedHash expectedHash) /\
          e = ErrHash (InvalidHash receivedHash expectedHash))
  | (None, None) => False
  end) /\
  (forall values,
      ParseQuery body = (values, None) ->
      Get values "status" = "Error" ->
      parseInitResponse c body =
      (Some {| Status := "Error";
               BrowserURL := Get values "browserurl";
               PollURL := Get values "pollurl";
               Hash := Get values "hash";
               Error := Get values "error" |},
       Some (ErrPaynow (Get values "error")))).
Proof.
  split.
  - unfold parseInitResponse.
    destruct (ParseQuery body) as [values [qe|]] eqn:Hq; [left; eauto|].
    assert (Hok : snd (ParseQuery body) = None) by now rewrite Hq.
    destruct (String.eqb_spec (Get values "status") "Error") as [E|N]; cbn [negb].
    + rewrite E. repeat split. exists values. rewrite E. auto.
    + destruct (ValidateHash_after_parse body (IntegrationKey c) Hok)
        as [-> | (r & x & ->)].
      * destruct (String.eqb_spec (Get values "status") "Error"); [congruence|].
        repeat split; [|assumption]. exists values. auto.
      * right. eauto.
  - intros values Hq E. unfold parseInitResponse. rewrite Hq, E. reflexivity.
Qed.

Lemma parseInitResponse_outcomes_witness :
  parseInitResponse test_config "status=Error&error=Invalid+integration+id&hash=00" =
  (Some {| Status := "Error"; BrowserURL := ""; PollURL := ""; Hash := "00";
           Error := "Invalid integration id" |},
   Some (ErrPaynow "Invalid integration id")).
Proof.
  apply (proj2 (parseInitResponse_outcomes test_config
                  "status=Error&error=Invalid+integration+id&hash=00")
           (fst (ParseQuery "status=Error&error=Invalid+integration+id&hash=00")));
    vm_compute; reflexivity.
Defined.

(** The signature of that body is not one [ValidateHash] accepts. *)
Example error_body_is_not_signed :
  ValidateHash "status=Error&error=Invalid+integration+id&hash=00" "test-key-123" <> None.
Proof. vm_compute. discriminate. Qed.

(** X4.  The outcomes of [parseStatusResponse].  A response is
    returned only for a body that parses, that [ValidateHash] accepts
    and whose amount scans, and its fields are the first values of
    their names; otherwise the error is the parse error, the mismatch
    error of [ValidateHash], or the error of the scan. *)
Theorem parseStatusResponse_outcomes (F : fmt_amount) (c : Config) (body : string) :
  match parseStatusResponse F c body with
  | inr resp =>
      exists values,
        ParseQuery body = (values, None) /\
        ValidateHash body (IntegrationKey c) = None /\
        Sscanf_f F (Get values "amount") = inr (sr_Amount resp) /\
        sr_Reference resp = Get values "reference" /\
        sr_PaynowReference resp = Get values "paynowreference" /\
        sr_PollURL resp = Get values "pollurl" /\
        sr_Status resp = Get values "status" /\
        sr_Hash resp = Get values "hash"
  | inl e =>
      (exists qe, snd (ParseQuery body) = Some qe /\ e = ErrParseStatusResponse qe) \/
      (exists receivedHash expectedHash,
          ValidateHash body (IntegrationKey c) = Some (InvalidHash receivedHash expectedHash) /\
          e = ErrHash (InvalidHash receivedHash expectedHash)) \/
      (exists values err,
          ParseQuery body = (values, None) /\
          ValidateHash body (IntegrationKey c) = None /\
          Sscanf_f F (Get values "amount") = inl err /\ e = ErrParseAmount err)
  end.
Proof.
  unfold parseStatusResponse.
  destruct (ParseQuery body) as [values [qe|]] eqn:Hq; [left; eauto|].
  assert (Hok : snd (ParseQuery body) = None) by now rewrite Hq.
  destruct (ValidateHash_after_parse body (IntegrationKey c) Hok)
    as [-> | (r & x & ->)].
  - destruct (Sscanf_f F (Get values "amount")) as [err|amount] eqn:Ha.
    + right. right. exists values, err. auto.
    + exists values. cbn. repeat split; auto.
  - right. left. eauto.
Qed.

Lemma ValidateHash_needs_hash_field (body key : string) :
  has_hash_field (Split body "&") = false -> ValidateHash body key <> None.
Proof.
  intros Hno. rewrite ValidateHash_fields.
  destruct (decode_values _) as [e|ds]; [discriminate|].
  unfold received_signature. rewrite (hash_values_none _ Hno).
  cbn [List.last]. cbv zeta. now rewrite eqb_sum_hex_empty.
Qed.

(** X5.  [parseStatusResponse] has no exemption for error statuses: a
    body without a field named [hash] is never turned into a response,
    the error being the parse error or the one of [ValidateHash]. *)
Theorem parseStatusResponse_needs_hash_field (F : fmt_amount) (c : Config) (body : string) :
  has_hash_field (Split body "&") = false ->
  exists e, parseStatusResponse F c body = inl e /\
            ((exists qe, e = ErrParseStatusResponse qe) \/ (exists err, e = ErrHash err)).
Proof.
  intros Hno. unfold parseStatusResponse.
  destruct (ParseQuery body) as [values [qe|]]; [eauto|].
  destruct (ValidateHash body (IntegrationKey c)) as [err|] eqn:Hv; [eauto|].
  now apply ValidateHash_needs_hash_field in Hv.
Qed.

Lemma parseStatusResponse_needs_hash_field_witness :
  exists e, parseStatusResponse fmt_ten test_config "status=Error&error=Invalid+integration+id" = inl e /\
            ((exists qe, e = ErrParseStatusResponse qe) \/ (exists err, e = ErrHash err)).
Proof. apply parseStatusResponse_needs_hash_field. reflexivity. Defined.

(** X6.  When [ValidateHash] accepts a body, the body has a field
    named [hash], every other field decodes, and the received signature
    has 128 characters of [0-9] and [A-F] and is the digest of the
    decoded values followed by the secret. *)
Theorem ValidateHash_success (body integrationKey : string) :
  ValidateHash body integrationKey = None ->
  has_hash_field (Split body "&") = true /\
  String.length (received_signature (Split body "&")) = 128%nat /\
  all_bytes is_upper_hex (received_signature (Split body "&")) = true /\
  exists ds,
    decode_values (signed_fields (Split body "&")) = inr ds /\
    received_signature (Split body "&") = sum_hex (concat_all ds +:+ integrationKey).
Proof.
  intros Hv.
  assert (Hh : has_hash_field (Split body "&") = true).
  { destruct (has_hash_field (Split body "&")) eqn:E; [reflexivity|].
    now apply (ValidateHash_needs_hash_field body integrationKey) in E. }
  rewrite ValidateHash_fields in Hv.
  destruct (decode_values _) as [e|ds]; [discriminate|]. cbv zeta in Hv.
  destruct (String.eqb_spec (received_signature (Split body "&"))
                            (sum_hex (concat_all ds +:+ integrationKey))) as [E|N];
    [|discriminate].
  split; [exact Hh|]. rewrite E.
  split; [apply length_sum_hex|]. split; [apply upper_hex_sum_hex|]. eauto.
Qed.

Lemma ValidateHash_success_witness :
  has_hash_field (Split ("x=5&y=6&hash=" +:+ sum_hex "56s") "&") = true /\
  String.length (received_signature (Split ("x=5&y=6&hash=" +:+ sum_hex "56s") "&")) = 128%nat /\
  all_bytes is_upper_hex (received_signature (Split ("x=5&y=6&hash=" +:+ sum_hex "56s") "&")) = true /\
  exists ds,
    decode_values (signed_fields (Split ("x=5&y=6&hash=" +:+ sum_hex "56s") "&")) = inr ds /\
    received_signature (Split ("x=5&y=6&hash=" +:+ sum_hex "56s") "&") = sum_hex (concat_all ds +:+ "s").
Proof. apply ValidateHash_success. vm_compute. reflexivity. Defined.

(* ===================================================================== *)
(** * The request of SendMobile *)

Ltac lookup_request :=
  unfold buildRequestData, Set_;
  repeat first [ rewrite lookup_insert_eq
               | rewrite lookup_insert_ne by discriminate ].

Lemma hash_keys_buildRequestData (F : fmt_amount) (c : Config) (payment : Payment) :
  hash_keys (buildRequestData F c payment) = request_names.
Proof.
  apply hash_keys_unique.
  - unfold request_names. repeat (constructor; try exact I).
  - unfold request_names. apply NoDup_ListNoDup.
    repeat (constructor; [cbn; intuition discriminate|]). constructor.
  - intros k. rewrite <- elem_of_dom.
    unfold buildRequestData, Set_. rewrite !dom_insert_L, dom_empty_L.
    unfold request_names.
    rewrite !elem_of_union, !elem_of_singleton, elem_of_empty.
    rewrite !elem_of_cons, elem_of_nil.
    split.
    + intros H. split; [tauto|].
      repeat (destruct H as [->|H]; [reflexivity|]). destruct H.
    + tauto.
Qed.

Lemma single_valued_buildRequestData (F : fmt_amount) (c : Config) (payment : Payment) :
  single_valued (buildRequestData F c payment).
Proof.
  unfold buildRequestData. repeat apply single_valued_Set. apply single_valued_empty.
Qed.

Lemma GenerateHash_buildRequestData (F : fmt_amount) (c : Config) (payment : Payment) (key : string) :
  GenerateHash (buildRequestData F c payment) key =
  sum_hex (Sprintf_2f F (Amount payment) +:+ AuthEmail payment +:+ IntegrationID c +:+
           Method payment +:+ Phone payment +:+ Reference payment +:+
           ResultURL c +:+ ReturnURL c +:+ "Message" +:+ key).
Proof.
  rewrite GenerateHash_concat, hash_keys_buildRequestData.
  unfold request_names, Get. cbn [List.map]. lookup_request.
  cbn [concat_all fold_right]. rewrite !append_assoc, append_nil_l. reflexivity.
Qed.

(** The payment [SendMobile] builds the request from. *)
Lemma signed_request_eq (F : fmt_amount) (c : Config) (payment : Payment) :
  exists payment',
    signed_request F c payment =
      Set_ (buildRequestData F c payment') "hash"
           (GenerateHash (buildRequestData F c payment') (IntegrationKey c)) /\
    Method payment' = (if String.eqb (Method payment) "" then MethodEcocash else Method payment) /\
    Reference payment' = Reference payment /\ Amount payment' = Amount payment /\
    AuthEmail payment' = AuthEmail payment /\ Phone payment' = Phone payment.
Proof.
  unfold signed_request. destruct (String.eqb (Method payment) "").
  - eexists. split; [reflexivity|]. cbn. repeat split; reflexivity.
  - exists payment. repeat split; reflexivity.
Qed.

(** X7.  The signature [SendMobile] sets on the request is the digest
    of the amount as formatted, the e-mail, the integration id, the
    method (EcoCash when none is given), the phone, the reference, the
    result URL, the return URL, the word [Message] and the integration
    key, in this order. *)
Theorem request_signature (F : fmt_amount) (c : Config) (payment : Payment) :
  Get (signed_request F c payment) "hash" =
  sum_hex (Sprintf_2f F (Amount payment) +:+ AuthEmail payment +:+ IntegrationID c +:+
           (if String.eqb (Method payment) "" then MethodEcocash else Method payment) +:+
           Phone payment +:+ Reference payment +:+
           ResultURL c +:+ ReturnURL c +:+ "Message" +:+ IntegrationKey c).
Proof.
  destruct (signed_request_eq F c payment) as (p' & -> & Hm & Hr & Ha & He & Hp).
  unfold Get at 1, Set_ at 1. rewrite lookup_insert_eq.
  rewrite GenerateHash_buildRequestData. now rewrite Hm, Hr, Ha, He, Hp.
Qed.

(** The request is signed over itself, carries one value for each name
    and is accepted by the verifier once encoded. *)
Lemma signed_request_verifies (F : fmt_amount) (c : Config) (payment : Payment) :
  let data := signed_request F c payment in
  ValidateHash (Encode data) (IntegrationKey c) = None /\
  Get data "hash" = GenerateHash data (IntegrationKey c) /\
  single_valued data.
Proof.
  cbv zeta. destruct (signed_request_eq F c payment) as (p' & -> & _).
  split; [|split].
  - apply posted_body_verifies, single_valued_buildRequestData.
  - unfold Get at 1, Set_ at 1. rewrite lookup_insert_eq.
    apply GenerateHash_ext; intros k Hk; unfold Get, Set_;
      (rewrite lookup_insert_ne; [reflexivity|intros <-; discriminate]).
  - apply single_valued_Set, single_valued_buildRequestData.
Qed.

Lemma validatePayment_None (payment : Payment) :
  Reference payment <> "" -> PrimFloat.leb (Amount payment) 0%float = false ->
  AuthEmail payment <> "" -> Phone payment <> "" ->
  validatePayment payment = None.
Proof.
  intros Hr Ha He Hp. unfold validatePayment. rewrite Ha.
  destruct (String.eqb_spec (Reference payment) ""); [congruence|].
  destruct (String.eqb_spec (AuthEmail payment) ""); [congruence|].
  destruct (String.eqb_spec (Phone payment) ""); [congruence|]. reflexivity.
Qed.

Lemma validatePayment_Some (payment : Payment) (e : client_error) :
  validatePayment payment = Some e ->
  e = ErrReferenceRequired \/ e = ErrAmountNotPositive \/
  e = ErrAuthEmailRequired \/ e = ErrPhoneRequired.
Proof.
  unfold validatePayment.
  destruct (String.eqb (Reference payment) ""); [intros [= <-]; auto|].
  destruct (PrimFloat.leb (Amount payment) 0); [intros [= <-]; auto|].
  destruct (String.eqb (AuthEmail payment) ""); [intros [= <-]; auto 6|].
  destruct (String.eqb (Phone payment) ""); [intros [= <-]; auto 6|].
  discriminate.
Qed.

(** X8.  A payment with an empty reference, an amount [<= 0], an
    empty e-mail or an empty phone is refused with one of the four
    validation errors, and the HTTP client is not called: its state is
    as before. *)
Theorem SendMobile_invalid_payment {S} (F : fmt_amount) (c : Client S)
    (payment : Payment) (s : S) :
  Reference payment = "" \/ PrimFloat.leb (Amount payment) 0%float = true \/
  AuthEmail payment = "" \/ Phone payment = "" ->
  exists e,
    SendMobile F c payment s = ((None, Some e), s) /\
    (e = ErrReferenceRequired \/ e = ErrAmountNotPositive \/
     e = ErrAuthEmailRequired \/ e = ErrPhoneRequired).
Proof.
  intros H. unfold SendMobile.
  destruct (validatePayment payment) as [e|] eqn:Hv.
  - exists e. split; [reflexivity|]. apply (validatePayment_Some _ _ Hv).
  - exfalso. revert Hv. unfold validatePayment.
    destruct (String.eqb_spec (Reference payment) ""); [discriminate|].
    destruct (PrimFloat.leb (Amount payment) 0); [discriminate|].
    destruct (String.eqb_spec (AuthEmail payment) ""); [discriminate|].
    destruct (String.eqb_spec (Phone payment) ""); [discriminate|].
    intuition congruence.
Qed.

Lemma SendMobile_invalid_payment_witness :
  exists e,
    SendMobile fmt_ten (NewWithHTTPClient test_config (mock_client "status=Ok"))
      {| Reference := "INV-001"; Amount := (-10)%float;
         AuthEmail := "test@example.com"; Phone := "0771234567"; Method := "" |} 0%nat
    = ((None, Some e), 0%nat) /\
    (e = ErrReferenceRequired \/ e = ErrAmountNotPositive \/
     e = ErrAuthEmailRequired \/ e = ErrPhoneRequired).
Proof. apply SendMobile_invalid_payment. right. left. reflexivity. Defined.

(** X9.  For a payment that passes the validation, [SendMobile] makes
    one call, [PostForm] to the initiate URL with the signed request,
    and returns the error of the transport, the error of reading the
    body, or what [parseInitResponse] makes of the body.  The request
    has one value for each name, its field [hash] is the signature of
    the request itself, its method is EcoCash when none is given, and
    its encoded form is accepted by [ValidateHash]. *)
Theorem SendMobile_valid_payment {S} (F : fmt_amount) (c : Client S)
    (payment : Payment) (s : S) :
  Reference payment <> "" -> PrimFloat.leb (Amount payment) 0%float = false ->
  AuthEmail payment <> "" -> Phone payment <> "" ->
  let data := signed_request F (config c) payment in
  (forall r s',
      PostForm (httpClient c) defaultInitiateURL data s = (r, s') ->
      SendMobile F c payment s =
        (match r with
         | inl err => (None, Some (ErrSendRequest err))
         | inr response =>
             match Body response with
             | inl err => (None, Some (ErrReadResponse err))
             | inr body => parseInitResponse (config c) body
             end
         end, s')) /\
  ValidateHash (Encode data) (IntegrationKey (config c)) = None /\
  Get data "hash" = GenerateHash data (IntegrationKey (config c)) /\
  single_valued data /\
  Get data "method" = (if String.eqb (Method payment) "" then MethodEcocash else Method payment) /\
  Get data "status" = "Message".
Proof.
  intros Hr Ha He Hp data.
  destruct (signed_request_verifies F (config c) payment) as (Hv & Hh & Hs).
  split; [|split; [exact Hv|split; [exact Hh|split; [exact Hs|]]]].
  - intros r s' Hpost. unfold SendMobile.
    rewrite (validatePayment_None _ Hr Ha He Hp). fold data. rewrite Hpost.
    destruct r as [err|response]; [reflexivity|].
    destruct (Body response); reflexivity.
  - unfold data. destruct (signed_request_eq F (config c) payment) as (p' & -> & Hm & _).
    unfold Get. lookup_request. auto.
Qed.

Lemma SendMobile_valid_payment_witness :
  let data := signed_request fmt_ten test_config test_payment in
  (forall r s',
      PostForm (mock_client "status=Error&error=Invalid+integration+id")
               defaultInitiateURL data 0%nat = (r, s') ->
      SendMobile fmt_ten
        (NewWithHTTPClient test_config (mock_client "status=Error&error=Invalid+integration+id"))
        test_payment 0%nat =
        (match r with
         | inl err => (None, Some (ErrSendRequest err))
         | inr response =>
             match Body response with
             | inl err => (None, Some (ErrReadResponse err))
             | inr body => parseInitResponse test_config body
             end
         end, s')) /\
  ValidateHash (Encode data) "test-key-123" = None /\
  Get data "hash" = GenerateHash data "test-key-123" /\
  single_valued data /\
  Get data "method" = MethodEcocash /\
  Get data "status" = "Message".
Proof.
  apply (SendMobile_valid_payment fmt_ten
           (NewWithHTTPClient test_config (mock_client "status=Error&error=Invalid+integration+id"))
           test_payment 0%nat); try discriminate; reflexivity.
Defined.

Lemma parseInitResponse_success (c : Config) (body : string) (resp : InitResponse) :
  parseInitResponse c body = (Some resp, None) ->
  snd (ParseQuery body) = None /\ Status resp <> "Error" /\
  ValidateHash body (IntegrationKey c) = None.
Proof.
  unfold parseInitResponse.
  destruct (ParseQuery body) as [values [qe|]]; [discriminate|].
  destruct (String.eqb_spec (Get values "status") "Error") as [E|N]; cbn [negb].
  - discriminate.
  - destruct (ValidateHash body (IntegrationKey c)); [discriminate|].
    intros [= <-]. auto.
Qed.

(** X10.  When [SendMobile] returns a response and no error, the
    payment was valid, the request was posted, and the body received
    parses, has a status other than [Error] and is accepted by
    [ValidateHash] with the integration key. *)
Theorem SendMobile_success_verified {S} (F : fmt_amount) (c : Client S)
    (payment : Payment) (s s' : S) (resp : InitResponse) :
  SendMobile F c payment s = ((Some resp, None), s') ->
  validatePayment payment = None /\
  exists response body,
    PostForm (httpClient c) defaultInitiateURL (signed_request F (config c) payment) s
      = (inr response, s') /\
    Body response = inr body /\
    snd (ParseQuery body) = None /\
    Status resp <> "Error" /\
    ValidateHash body (IntegrationKey (config c)) = None.
Proof.
  unfold SendMobile. destruct (validatePayment payment); [discriminate|].
  destruct (PostForm _ _ _ _) as [[err|response] s1]; [discriminate|].
  destruct (Body response) as [err|body] eqn:Hb; [discriminate|].
  intros [= Hparse <-]. split; [reflexivity|].
  exists response, body. split; [reflexivity|]. split; [exact Hb|].
  apply (parseInitResponse_success _ _ _ Hparse).
Qed.

Lemma SendMobile_success_verified_witness :
  validatePayment test_payment = None /\
  exists response body,
    PostForm (mock_client ("status=Ok&hash=" +:+ sum_hex "Oktest-key-123"))
             defaultInitiateURL (signed_request fmt_ten test_config test_payment) 0%nat
      = (inr response, 1%nat) /\
    Body response = inr body /\
    snd (ParseQuery body) = None /\
    Status {| Status := "Ok"; BrowserURL := ""; PollURL := "";
              Hash := sum_hex "Oktest-key-123"; Error := "" |} <> "Error" /\
    ValidateHash body "test-key-123" = None.
Proof.
  apply (SendMobile_success_verified fmt_ten
           (NewWithHTTPClient test_config
              (mock_client ("status=Ok&hash=" +:+ sum_hex "Oktest-key-123")))
           test_payment 0%nat 1%nat).
  vm_compute. reflexivity.
Defined.

Lemma parseStatusResponse_success (F : fmt_amount) (c : Config) (body : string)
    (resp : StatusResponse) :
  parseStatusResponse F c body = inr resp ->
  snd (ParseQuery body) = None /\ ValidateHash body (IntegrationKey c) = None /\
  Sscanf_f F (Get (fst (ParseQuery body)) "amount") = inr (sr_Amount resp) /\
  sr_Status resp = Get (fst (ParseQuery body)) "status".
Proof.
  unfold parseStatusResponse.
  destruct (ParseQuery body) as [values [qe|]]; [discriminate|].
  destruct (ValidateHash body (IntegrationKey c)); [discriminate|].
  destruct (Sscanf_f F (Get values "amount")) as [err|amount] eqn:Ha; [discriminate|].
  intros [= <-]. cbn. auto.
Qed.

(** X11.  When [PollTransaction] returns a response, the body
    received parses and is accepted by [ValidateHash] with the
    integration key; the status and the amount of the response are
    those of the body. *)
Theorem PollTransaction_success_verified {S} (F : fmt_amount) (c : Client S)
    (pollURL : string) (s s' : S) (resp : StatusResponse) :
  PollTransaction F c pollURL s = (inr resp, s') ->
  exists response body,
    HTTPGet (httpClient c) pollURL s = (inr response, s') /\
    Body response = inr body /\
    snd (ParseQuery body) = None /\
    ValidateHash body (IntegrationKey (config c)) = None /\
    Sscanf_f F (Get (fst (ParseQuery body)) "amount") = inr (sr_Amount resp) /\
    sr_Status resp = Get (fst (ParseQuery body)) "status".
Proof.
  unfold PollTransaction.
  destruct (HTTPGet _ _ _) as [[err|response] s1]; [discriminate|].
  destruct (Body response) as [err|body] eqn:Hb; [discriminate|].
  intros [= Hparse <-]. exists response, body.
  split; [reflexivity|]. split; [exact Hb|].
  apply (parseStatusResponse_success _ _ _ _ Hparse).
Qed.

Lemma PollTransaction_success_verified_witness :
  exists response body,
    HTTPGet (mock_client poll_body) "https://www.paynow.co.zw/interface/poll/123" 0%nat
      = (inr response, 1%nat) /\
    Body response = inr body /\
    snd (ParseQuery body) = None /\
    ValidateHash body "test-key-123" = None /\
    Sscanf_f fmt_ten (Get (fst (ParseQuery body)) "amount") = inr 10%float /\
    StatusPaid = Get (fst (ParseQuery body)) "status".
Proof.
  apply (PollTransaction_success_verified fmt_ten
           (NewWithHTTPClient test_config (mock_client poll_body))
           "https://www.paynow.co.zw/interface/poll/123" 0%nat 1%nat
           {| sr_Reference := "INV-001"; sr_Amount := 10%float;
              sr_PaynowReference := "12345678";
              sr_PollURL := "https://www.paynow.co.zw/interface/poll/123";
              sr_Status := StatusPaid;
              sr_Hash := sum_hex "10.0012345678https://www.paynow.co.zw/interface/poll/123INV-001Paidtest-key-123" |}).
  vm_compute. reflexivity.
Defined.

(* ===================================================================== *)
(** * Transaction statuses *)

(** X12.  No status is at once paid and pending, paid and failed, or
    pending and failed. *)
Theorem status_predicates_disjoint (s : TransactionStatus) :
  IsPaid s && IsPending s = false /\
  IsPaid s && IsFailed s = false /\
  IsPending s && IsFailed s = false.
Proof.
  unfold IsPaid, IsPending, IsFailed.
  repeat split;
    repeat match goal with
           | |- context [String.eqb s ?t] =>
               destruct (String.eqb_spec s t) as [->|?]; try reflexivity
           end.
Qed.

(* ===================================================================== *)
(** * What the signature does not cover *)

Lemma hash_keys_two (a b u v : string) :
  string_lt a b -> is_hash a = false -> is_hash b = false ->
  hash_keys (Set_ (Set_ ∅ a u) b v) = [a; b].
Proof.
  intros Hab Ha Hb. apply hash_keys_unique.
  - repeat constructor. now apply string_lt_le.
  - apply StronglySorted_lt_NoDup. repeat constructor. exact Hab.
  - intros k. rewrite <- elem_of_dom. unfold Set_.
    rewrite !dom_insert_L, dom_empty_L.
    rewrite !elem_of_union, !elem_of_singleton, elem_of_empty.
    rewrite !elem_of_cons, elem_of_nil.
    split.
    + intros [->|[->|[]]]; auto.
    + tauto.
Qed.

Lemma GenerateHash_two (a b u v key : string) :
  string_lt a b -> is_hash a = false -> is_hash b = false ->
  GenerateHash (Set_ (Set_ ∅ a u) b v) key = sum_hex (u +:+ v +:+ key).
Proof.
  intros Hab Ha Hb. rewrite GenerateHash_concat, (hash_keys_two _ _ _ _ Hab Ha Hb).
  unfold Get, Set_. cbn [List.map].
  rewrite lookup_insert_eq, lookup_insert_ne, lookup_insert_eq.
  - cbn [concat_all fold_right]. now rewrite !append_assoc, append_nil_l.
  - intros <-. now apply string_lt_neq in Hab.
Qed.

(** X13.  The signature covers the values joined without separators,
    not the names: moving the end of one value to the start of the
    next, and renaming the two fields in the same order, leaves it
    unchanged. *)
Theorem GenerateHash_values_only (a b a' b' x y z integrationKey : string) :
  string_lt a b -> is_hash a = false -> is_hash b = false ->
  string_lt a' b' -> is_hash a' = false -> is_hash b' = false ->
  GenerateHash (Set_ (Set_ ∅ a (x +:+ y)) b z) integrationKey =
  GenerateHash (Set_ (Set_ ∅ a' x) b' (y +:+ z)) integrationKey.
Proof.
  intros Hab Ha Hb Hab' Ha' Hb'.
  rewrite !GenerateHash_two by assumption. now rewrite !append_assoc.
Qed.

Lemma GenerateHash_values_only_witness :
  GenerateHash (Set_ (Set_ ∅ "amount" ("10" +:+ ".00")) "reference" "INV-001") "key" =
  GenerateHash (Set_ (Set_ ∅ "id" "10") "phone" (".00" +:+ "INV-001")) "key".
Proof. apply GenerateHash_values_only; reflexivity. Defined.

(** X14.  The place of the field [hash] in the payload does not
    matter to [ValidateHash]: with a single such field, moving it to
    the front gives the same result. *)
Theorem hash_field_position_irrelevant
    (rawBody rawBody' integrationKey : string) (pre post : list string)
    (p key value : string) :
  Split rawBody "&" = pre ++ p :: post ->
  Split rawBody' "&" = p :: pre ++ post ->
  SplitN p "=" 2 = [key; value] ->
  is_hash key = true ->
  has_hash_field pre = false ->
  has_hash_field post = false ->
  ValidateHash rawBody integrationKey = ValidateHash rawBody' integrationKey.
Proof.
  intros E E' Hp Hk Hpre Hpost.
  assert (Hf : field_of p = Some (key, value)) by (unfold field_of; now rewrite Hp).
  assert (Hs : signed_fields [p] = []).
  { unfold signed_fields. rewrite fields_cons, Hf. cbn [fields omap list_omap List.filter fst].
    now rewrite Hk. }
  assert (Hh : hash_values [p] = [value]).
  { unfold hash_values. rewrite fields_cons, Hf. cbn [fields omap list_omap List.filter fst].
    now rewrite Hk. }
  rewrite !ValidateHash_fields, E, E'. unfold received_signature.
  change (p :: post) with ([p] ++ post). change (p :: pre ++ post) with ([p] ++ pre ++ post).
  rewrite !signed_fields_app, !hash_values_app, Hs, Hh.
  rewrite (hash_values_none _ Hpre), (hash_values_none _ Hpost). reflexivity.
Qed.

Lemma hash_field_position_irrelevant_witness :
  ValidateHash "x=5&hash=AB&y=6" "s" = ValidateHash "hash=AB&x=5&y=6" "s".
Proof.
  apply (hash_field_position_irrelevant "x=5&hash=AB&y=6" "hash=AB&x=5&y=6" "s"
           ["x=5"] ["y=6"] "hash=AB" "hash" "AB"); reflexivity.
Defined.

(* ===================================================================== *)
(** * Where a field enters the hash input *)

Lemma ltb_iff (a b : string) : String.ltb a b = true <-> String.le a b /\ a <> b.
Proof.
  unfold String.ltb, String.le, String.leb.
  destruct (String.compare a b) eqn:E; cbn.
  - apply String.compare_eq_iff in E. split; [discriminate|]. intros [_ H]. now destruct H.
  - split; [|reflexivity]. intros _. split; [exact I|].
    intros ->. rewrite string_compare_refl in E. discriminate.
  - split; [discriminate|]. intros [[] _].
Qed.

Lemma ltb_trichotomy (a b : string) :
  String.ltb a b = true \/ a = b \/ String.ltb b a = true.
Proof.
  destruct (decide (a = b)) as [->|Hne]; [auto|].
  destruct (total String.le a b) as [H|H].
  - left. now apply ltb_iff.
  - right. right. apply ltb_iff. split; [exact H|congruence].
Qed.

Lemma ltb_asym (a b : string) : String.ltb a b = true -> String.ltb b a = false.
Proof.
  intros H. apply ltb_iff in H as [Hab Hne].
  destruct (String.ltb b a) eqn:E; [|reflexivity].
  apply ltb_iff in E as [Hba _]. destruct Hne. now apply (anti_symm String.le).
Qed.

Lemma ltb_le_trans (a b c : string) :
  String.ltb a b = true -> String.le b c -> String.ltb a c = true.
Proof.
  intros H Hbc. apply ltb_iff in H as [Hab Hne]. apply ltb_iff. split.
  - now transitivity b.
  - intros ->. destruct Hne. now apply (anti_symm String.le).
Qed.

Lemma filter_all {A} (f : A -> bool) (l : list A) :
  Forall (fun x => f x = true) l -> List.filter f l = l.
Proof. induction 1 as [|x l Hx _ IH]; cbn; [reflexivity|]. now rewrite Hx, IH. Qed.

Lemma filter_none {A} (f : A -> bool) (l : list A) :
  Forall (fun x => f x = false) l -> List.filter f l = [].
Proof. induction 1 as [|x l Hx _ IH]; cbn; [reflexivity|]. now rewrite Hx. Qed.

(** A sorted list without [k] is its part below [k] followed by its
    part above [k]. *)
Lemma sorted_split (k : string) (l : list string) :
  StronglySorted String.le l -> k ∉ l ->
  l = List.filter (fun j => String.ltb j k) l ++ List.filter (fun j => String.ltb k j) l.
Proof.
  induction 1 as [|a l Hs IH Ha]; intros Hk; [reflexivity|].
  apply not_elem_of_cons in Hk as [Hka Hkl].
  destruct (ltb_trichotomy a k) as [H|[->|H]]; [| congruence |].
  - cbn [List.filter]. rewrite H, (ltb_asym _ _ H). cbn [app]. f_equal. now apply IH.
  - assert (Hall : Forall (fun x => String.ltb k x = true) l).
    { eapply Forall_impl; [exact Ha|]. intros x Hax. exact (ltb_le_trans _ _ _ H Hax). }
    cbn [List.filter]. rewrite H, (ltb_asym _ _ H).
    rewrite (filter_all (fun j => String.ltb k j) l Hall).
    rewrite (filter_none (fun j => String.ltb j k) l); [reflexivity|].
    eapply Forall_impl; [exact Hall|]. intros x Hx. now apply ltb_asym.
Qed.

(** The names to sign after [k] is set: those below [k], [k], those
    above [k]. *)
Lemma hash_keys_insert (F : Values) (k : string) (vs : list string) :
  is_hash k = false ->
  hash_keys (<[k := vs]> F) =
  List.filter (fun j => String.ltb j k) (hash_keys F) ++
  k :: List.filter (fun j => String.ltb k j) (hash_keys F).
Proof.
  intros Hk.
  assert (Hss : StronglySorted String.le (hash_keys F)).
  { apply Sorted_StronglySorted; [apply _|apply Strings_sorted]. }
  assert (Hnd : NoDup (hash_keys F)).
  { unfold hash_keys. rewrite Strings_perm. apply NoDup_List_filter, NoDup_range_keys. }
  assert (Hin : forall f x, x ∈ List.filter f (hash_keys F) <-> x ∈ hash_keys F /\ f x = true).
  { intros f x. now rewrite !list_elem_of_In, filter_In. }
  apply hash_keys_unique.
  - apply StronglySorted_Sorted, StronglySorted_app. split; [|split].
    + intros x1 x2 H1 H2. apply Hin in H1 as [_ H1]. apply ltb_iff in H1 as [H1 _].
      apply elem_of_cons in H2 as [->|H2]; [exact H1|].
      apply Hin in H2 as [_ H2]. apply ltb_iff in H2 as [H2 _]. now transitivity k.
    + now apply filter_StronglySorted.
    + constructor; [now apply filter_StronglySorted|].
      apply Forall_forall. intros x Hx. apply Hin in Hx as [_ Hx].
      now apply ltb_iff in Hx as [Hx _].
  - apply NoDup_app. split; [now apply NoDup_List_filter|]. split.
    + intros x H1 H2. apply Hin in H1 as [_ H1].
      apply elem_of_cons in H2 as [->|H2].
      * apply ltb_iff in H1 as [_ H1]. now destruct H1.
      * apply Hin in H2 as [_ H2]. rewrite (ltb_asym _ _ H1) in H2. discriminate.
    + constructor; [|now apply NoDup_List_filter].
      intros H. apply Hin in H as [_ H]. apply ltb_iff in H as [_ H]. now destruct H.
  - intros j. rewrite elem_of_app, elem_of_cons, !Hin, !elem_of_hash_keys.
    destruct (decide (k = j)) as [<-|Hne].
    + rewrite lookup_insert_eq. split; [intros _; eauto|auto].
    + rewrite lookup_insert_ne by exact Hne. split.
      * intros [[H _]|[->|[H _]]]; [exact H|congruence|exact H].
      * intros H. destruct (ltb_trichotomy j k) as [L|[->|G]]; [auto|congruence|auto].
Qed.

Lemma GenerateHash_insert (F : Values) (k v : string) (key : string) :
  is_hash k = false ->
  GenerateHash (Set_ F k v) key =
  sum_hex (concat_all (List.map (Get F) (List.filter (fun j => String.ltb j k) (hash_keys F)))
           +:+ v +:+
           concat_all (List.map (Get F) (List.filter (fun j => String.ltb k j) (hash_keys F)))
           +:+ key).
Proof.
  intros Hk. rewrite GenerateHash_concat. unfold Set_. rewrite (hash_keys_insert _ _ _ Hk).
  rewrite List.map_app, concat_all_app. cbn [List.map concat_all fold_right].
  assert (Hget : forall f, List.map (Get (<[k := [v]]> F)) (List.filter f (hash_keys F)) =
                           List.map (Get F) (List.filter f (hash_keys F)) \/
                           exists x, x ∈ List.filter f (hash_keys F) /\ f x = true /\ x = k).
  { intros f. destruct (decide (k ∈ List.filter f (hash_keys F))) as [Hin|Hnin].
    - right. exists k. apply list_elem_of_In in Hin as Hin'. apply filter_In in Hin'. tauto.
    - left. apply map_ext_in. intros x Hx. unfold Get.
      rewrite lookup_insert_ne; [reflexivity|]. intros <-. apply Hnin. now apply list_elem_of_In. }
  destruct (Hget (fun j => String.ltb j k)) as [-> | (x & _ & Hx & ->)].
  2:{ apply ltb_iff in Hx as [_ Hx]. now destruct Hx. }
  destruct (Hget (fun j => String.ltb k j)) as [-> | (x & _ & Hx & ->)].
  2:{ apply ltb_iff in Hx as [_ Hx]. now destruct Hx. }
  unfold Get at 2. rewrite lookup_insert_eq. now rewrite !append_assoc.
Qed.

(** X15.  Setting a field other than [hash] puts its value into the
    hash input at the place of its name: after the values of the
    smaller names and before those of the greater names, the former
    value of the name, if any, being dropped. *)
Theorem GenerateHash_Set_position (F : Values) (k v integrationKey : string) :
  is_hash k = false ->
  GenerateHash (Set_ F k v) integrationKey =
  sum_hex (concat_all (List.map (Get F) (List.filter (fun j => String.ltb j k) (hash_keys F)))
           +:+ v +:+
           concat_all (List.map (Get F) (List.filter (fun j => String.ltb k j) (hash_keys F)))
           +:+ integrationKey).
Proof. apply GenerateHash_insert. Qed.

Lemma GenerateHash_Set_position_witness :
  GenerateHash (Set_ ab "aa" "x") "key" =
  sum_hex (concat_all (List.map (Get ab) (List.filter (fun j => String.ltb j "aa") (hash_keys ab)))
           +:+ "x" +:+
           concat_all (List.map (Get ab) (List.filter (fun j => String.ltb "aa" j) (hash_keys ab)))
           +:+ "key").
Proof. apply GenerateHash_Set_position. reflexivity. Defined.

(** X16.  A field with the empty value is signed as if it were
    absent. *)
Theorem GenerateHash_empty_value (F : Values) (k integrationKey : string) :
  is_hash k = false ->
  GenerateHash (Set_ F k "") integrationKey = GenerateHash (delete k F) integrationKey.
Proof.
  intros Hk. set (G := delete k F).
  assert (E : Set_ F k "" = Set_ G k "").
  { unfold Set_, G. now rewrite insert_delete_eq. }
  rewrite E, (GenerateHash_insert _ _ _ _ Hk), append_nil_l.
  rewrite GenerateHash_concat, <- append_assoc, <- concat_all_app, <- List.map_app.
  rewrite <- sorted_split; [reflexivity| |].
  - apply Sorted_StronglySorted; [apply _|apply Strings_sorted].
  - rewrite elem_of_hash_keys. unfold G. rewrite lookup_delete_eq.
    intros [[x Hx] _]. discriminate.
Qed.

Lemma GenerateHash_empty_value_witness :
  GenerateHash (Set_ ab "phone" "") "key" = GenerateHash (delete "phone" ab) "key".
Proof. apply GenerateHash_empty_value. reflexivity. Defined.

(* ===================================================================== *)
(** * The verifier hashes decoded values *)

Lemma decode_values_app (l1 l2 : list (string * string)) :
  decode_values (l1 ++ l2) =
  match decode_values l1 with
  | inl e => inl e
  | inr d1 =>
      match decode_values l2 with
      | inl e => inl e
      | inr d2 => inr (d1 ++ d2)
      end
  end.
Proof.
  induction l1 as [|[k v] l1 IH]; cbn [app decode_values].
  - destruct (decode_values l2); reflexivity.
  - destruct (QueryUnescape v); [reflexivity|]. rewrite IH.
    destruct (decode_values l1); [reflexivity|].
    destruct (decode_values l2); reflexivity.
Qed.

(** X17.  [ValidateHash] depends on the decoded value of a field, not
    on how it is encoded: two payloads that differ in the encoding of
    one field other than [hash] get the same result. *)
Theorem ValidateHash_encoding_irrelevant
    (rawBody rawBody' integrationKey : string) (pre post : list string)
    (p p' key value value' decoded : string) :
  Split rawBody "&" = pre ++ p :: post ->
  Split rawBody' "&" = pre ++ p' :: post ->
  SplitN p "=" 2 = [key; value] ->
  SplitN p' "=" 2 = [key; value'] ->
  is_hash key = false ->
  QueryUnescape value = inr decoded ->
  QueryUnescape value' = inr decoded ->
  ValidateHash rawBody integrationKey = ValidateHash rawBody' integrationKey.
Proof.
  intros E E' Hp Hp' Hk Hv Hv'.
  assert (Hf : field_of p = Some (key, value)) by (unfold field_of; now rewrite Hp).
  assert (Hf' : field_of p' = Some (key, value')) by (unfold field_of; now rewrite Hp').
  rewrite !ValidateHash_fields, E, E'. unfold received_signature.
  change (p :: post) with ([p] ++ post). change (p' :: post) with ([p'] ++ post).
  rewrite !signed_fields_app, !hash_values_app, !decode_values_app.
  assert (Hs : decode_values (signed_fields [p]) = inr [decoded]).
  { unfold signed_fields. rewrite fields_cons, Hf.
    cbn [fields omap list_omap List.filter fst]. rewrite Hk. cbn. now rewrite Hv. }
  assert (Hs' : decode_values (signed_fields [p']) = inr [decoded]).
  { unfold signed_fields. rewrite fields_cons, Hf'.
    cbn [fields omap list_omap List.filter fst]. rewrite Hk. cbn. now rewrite Hv'. }
  assert (Hh : hash_values [p] = hash_values [p']).
  { unfold hash_values. rewrite !fields_cons, Hf, Hf'.
    cbn [fields omap list_omap List.filter fst]. now rewrite Hk. }
  now rewrite Hs, Hs', Hh.
Qed.

Lemma ValidateHash_encoding_irrelevant_witness :
  ValidateHash "status=Ok&message=Payment+successful&hash=00" "key123" =
  ValidateHash "status=Ok&message=Payment%20success%66ul&hash=00" "key123".
Proof.
  apply (ValidateHash_encoding_irrelevant
           "status=Ok&message=Payment+successful&hash=00"
           "status=Ok&message=Payment%20success%66ul&hash=00" "key123"
           ["status=Ok"] ["hash=00"]
           "message=Payment+successful" "message=Payment%20success%66ul"
           "message" "Payment+successful" "Payment%20success%66ul" "Payment successful");
    reflexivity.
Defined.

(* ===================================================================== *)
(** * Several values for one name *)

(** The hash input after [values[k] = vs], for a name other than
    [hash]: of the values [vs], the first one alone, at the place of
    [k]. *)
Lemma GenerateHash_insert_values (F : Values) (k : string) (vs : list string) (key : string) :
  is_hash k = false ->
  GenerateHash (<[k := vs]> F) key =
  sum_hex (concat_all (List.map (Get F) (List.filter (fun j => String.ltb j k) (hash_keys F)))
           +:+ match vs with x :: _ => x | [] => "" end +:+
           concat_all (List.map (Get F) (List.filter (fun j => String.ltb k j) (hash_keys F)))
           +:+ key).
Proof.
  intros Hk. rewrite GenerateHash_concat, (hash_keys_insert _ _ _ Hk).
  rewrite List.map_app, concat_all_app. cbn [List.map concat_all fold_right].
  assert (Hget : forall f, (forall x, f x = true -> x <> k) ->
                 List.map (Get (<[k := vs]> F)) (List.filter f (hash_keys F)) =
                 List.map (Get F) (List.filter f (hash_keys F))).
  { intros f Hf. apply map_ext_in. intros x Hx. apply filter_In in Hx as [_ Hx].
    unfold Get. rewrite lookup_insert_ne; [reflexivity|].
    intros <-. now apply (Hf k). }
  rewrite !Hget.
  - unfold Get at 2. rewrite lookup_insert_eq. now rewrite !append_assoc.
  - intros x Hx. apply ltb_iff in Hx as [_ Hx]. congruence.
  - intros x Hx. now apply ltb_iff in Hx as [_ Hx].
Qed.

(** C10.  When a name maps to several values, only the first one enters
    the hash input.  The signature is the one of the map that keeps that
    first value alone; and, for a name other than [hash], the hash input
    is made of the values of the smaller names, that first value, the
    values of the greater names and the key: the first value is in it,
    the further values are not. *)
Theorem GenerateHash_first_value_only
    (values : Values) (k v : string) (vs : list string) (integrationKey : string) :
  GenerateHash (<[k := v :: vs]> values) integrationKey =
  GenerateHash (<[k := [v]]> values) integrationKey
  /\
  (is_hash k = false ->
   GenerateHash (<[k := v :: vs]> values) integrationKey =
   sum_hex (concat_all (List.map (Get values)
                          (List.filter (fun j => String.ltb j k) (hash_keys values)))
            +:+ v +:+
            concat_all (List.map (Get values)
                          (List.filter (fun j => String.ltb k j) (hash_keys values)))
            +:+ integrationKey)).
Proof.
  split.
  - apply GenerateHash_ext; intros k' _.
    + destruct (decide (k = k')) as [->|Hne].
      * rewrite !lookup_insert_eq. split; eauto.
      * now rewrite !lookup_insert_ne.
    + unfold Get. destruct (decide (k = k')) as [->|Hne].
      * now rewrite !lookup_insert_eq.
      * now rewrite !lookup_insert_ne.
  - intros Hk. apply (GenerateHash_insert_values values k (v :: vs) integrationKey Hk).
Qed.

Lemma GenerateHash_first_value_only_witness :
  GenerateHash (<["aa" := ["x"; "y"; "z"]]> ab) "key" =
  sum_hex (concat_all (List.map (Get ab)
                         (List.filter (fun j => String.ltb j "aa") (hash_keys ab)))
           +:+ "x" +:+
           concat_all (List.map (Get ab)
                         (List.filter (fun j => String.ltb "aa" j) (hash_keys ab)))
           +:+ "key").
Proof.
  apply (proj2 (GenerateHash_first_value_only ab "aa" "x" ["y"; "z"] "key")).
  reflexivity.
Defined.

Example GenerateHash_three_values :
  GenerateHash (<["aa" := ["x"; "y"; "z"]]> ab) "key" = sum_hex "1x2key".
Proof. vm_compute. reflexivity. Qed.
